(** * meddleware: resolution of middleware specifications

    A shallow embedding of [src/index.js]: the spec resolver ([resolve]),
    the module locator and factory binder ([findModule], [findModuleMethod],
    [resolveImpl]), the combinator factory ([middleware]), the priority
    comparator ([compare]), route normalisation ([normalize]) and the
    registration list built by [meddlewareImpl].

    JavaScript values are modelled as trees of plain data. An object is its
    list of properties in enumeration order, and reading a property is a
    lookup in that list; an array is its list of elements; a function is a
    reference into the table of host callables, with the properties put on
    it. Numbers are IEEE-754 binary64 values. Thrown exceptions and
    rejected promises are both the [Throw] outcome of a call; an async call
    is followed through to its outcome. Of the assignments the source makes
    to its arguments, the one to [spec.name] is followed on the spec that
    [resolve] was called on. *)

From Stdlib Require Import ZArith List String Ascii Bool Lia Arith.
From Stdlib Require Import Floats.SpecFloat DecimalString.
From Stdlib Require Import Sorting.Permutation Sorting.Sorted.
Import ListNotations.
Local Open Scope list_scope.
Local Open Scope string_scope.

(** ** Numbers: IEEE-754 binary64 *)

Module Number.

Definition prec : Z := 53.
Definition emax : Z := 1024.

Definition t : Type := spec_float.

Definition sub (x y : t) : t := SFsub prec emax x y.
Definition ltb (x y : t) : bool := SFltb x y.
Definition leb (x y : t) : bool := SFleb x y.
Definition eqb (x y : t) : bool := SFeqb x y.

Definition zero : t := S754_zero false.
Definition of_Z (z : Z) : t := binary_normalize prec emax z 0 false.

(** [Number.MIN_VALUE]: the smallest positive double, 2^-1074. *)
Definition MIN_VALUE : t := S754_finite false 1 (-1074).

Definition is_nan (x : t) : bool :=
  match x with S754_nan => true | _ => false end.

(** A well-formed double: canonical mantissa and exponent in range. *)
Definition valid (x : t) : bool := valid_binary prec emax x.

(** [x > 0] and [x <= 0] as JavaScript evaluates them (both false on
    NaN). *)
Definition gt0 (x : t) : bool := ltb zero x.
Definition le0 (x : t) : bool := leb x zero.

(** The position of a double on the extended line, scaled by 2^1074 so
    that it is an integer; the infinities sit beyond every finite value.
    Only used to reason about the order, never to compute. *)
Definition ord (x : t) : Z :=
  match x with
  | S754_zero _ => 0
  | S754_nan => 0
  | S754_infinity s => cond_Zopp s (2 ^ 2100)
  | S754_finite s m e => cond_Zopp s (Zpos m * 2 ^ (e + 1074))
  end.


(** The magnitude of a finite double, scaled by 2^1074. *)
Definition mag (m : BinNums.positive) (e : Z) : Z := Zpos m * 2 ^ (e + 1074).

(** A result that is finite or infinite, with the given sign. *)
Definition signed (s : bool) (r : t) : Prop :=
  match r with
  | S754_finite s' _ _ | S754_infinity s' => s' = s
  | _ => False
  end.

End Number.

(** ** Values *)

#[local] Set Warnings "-register-all".

Inductive value : Type :=
| VUndefined
| VNull
| VBool (b : bool)
| VNumber (n : Number.t)
| VString (s : string)
| VFunction (id : nat) (props : list (string * value))
| VRegExp (source : string)
| VArray (elems : list value)
| VObject (props : list (string * value)).

(** Exceptions. [TypeError] and [Error] are the ones the source constructs,
    with their message; [NativeTypeError] is a TypeError raised by the
    language itself (reading a property of null, [in] on a primitive,
    assigning to a read-only property); [Raised] is anything a host callable
    or the module loader throws. *)
Inductive exn : Type :=
| TypeError (message : string)
| Error (message : string)
| NativeTypeError
| Raised (v : value).

Inductive result (A : Type) : Type :=
| Return (a : A)
| Throw (e : exn).
Arguments Return {A} a.
Arguments Throw {A} e.

Definition bind {A B : Type} (r : result A) (k : A -> result B) : result B :=
  match r with
  | Return a => k a
  | Throw e => Throw e
  end.

Notation "x <- r ;; k" := (bind r (fun x => k))
  (at level 61, r at next level, right associativity).

(** Truthiness (ToBoolean). *)
Definition truthy (v : value) : bool :=
  match v with
  | VUndefined | VNull => false
  | VBool b => b
  | VNumber n =>
      match n with
      | S754_zero _ | S754_nan => false
      | _ => true
      end
  | VString s => negb (s =? "")
  | VFunction _ _ | VRegExp _ | VArray _ | VObject _ => true
  end.

(** [a || b]. *)
Definition or_else (a b : value) : value := if truthy a then a else b.

Inductive type_tag : Type :=
| TUndefined | TObject | TBoolean | TNumber | TString | TFunction.

(** [typeof v]. *)
Definition typeof (v : value) : type_tag :=
  match v with
  | VUndefined => TUndefined
  | VNull => TObject
  | VBool _ => TBoolean
  | VNumber _ => TNumber
  | VString _ => TString
  | VFunction _ _ => TFunction
  | VRegExp _ | VArray _ | VObject _ => TObject
  end.

(** *** Properties *)

Fixpoint lookup (k : string) (ps : list (string * value)) : option value :=
  match ps with
  | [] => None
  | (k', v) :: rest => if k' =? k then Some v else lookup k rest
  end.

(** Assignment to a property list: an existing key keeps its position, a new
    key goes last. *)
Fixpoint update (k : string) (v : value) (ps : list (string * value))
  : list (string * value) :=
  match ps with
  | [] => [(k, v)]
  | (k', v') :: rest =>
      if k' =? k then (k, v) :: rest else (k', v') :: update k v rest
  end.

Definition index_key (i : nat) : string :=
  NilZero.string_of_uint (Nat.to_uint i).

(** The indexed elements of an array, as (key, value) pairs. *)
Definition array_entries (xs : list value) : list (string * value) :=
  combine (map index_key (seq 0 (List.length xs))) xs.

(** Own enumerable entries in enumeration order ([Object.keys] order). *)
Definition entries (o : value) : list (string * value) :=
  match o with
  | VObject ps => ps
  | VFunction _ ps => ps
  | VArray xs => array_entries xs
  | _ => []
  end.

(** [o[k]] for [o] other than null and undefined. *)
Definition get (o : value) (k : string) : value :=
  match o with
  | VArray xs =>
      if k =? "length" then VNumber (Number.of_Z (Z.of_nat (List.length xs)))
      else match lookup k (array_entries xs) with
           | Some v => v
           | None => VUndefined
           end
  | _ => match lookup k (entries o) with
         | Some v => v
         | None => VUndefined
         end
  end.

(** [o.k], which throws on null and undefined. *)
Definition read (o : value) (k : string) : result value :=
  match o with
  | VUndefined | VNull => Throw NativeTypeError
  | _ => Return (get o k)
  end.

(** [k in o], which throws unless [o] is an object. *)
Definition has (k : string) (o : value) : result bool :=
  match o with
  | VObject ps | VFunction _ ps =>
      Return (match lookup k ps with Some _ => true | None => false end)
  | VArray xs =>
      Return ((k =? "length")
              || match lookup k (array_entries xs) with
                 | Some _ => true
                 | None => false
                 end)
  | VRegExp _ => Return false
  | _ => Throw NativeTypeError
  end.

(** [o.name = v] in strict mode. Plain objects take the property; the
    [name] of a function is read-only; primitives cannot be assigned to.
    Named properties of arrays and regular expressions are outside the
    model, so the assignment leaves them as they are. *)
Definition assign_name (o : value) (v : value) : result value :=
  match o with
  | VObject ps => Return (VObject (update "name" v ps))
  | VArray _ | VRegExp _ => Return o
  | _ => Throw NativeTypeError
  end.

(** *** core-util-is *)

Definition isObject (v : value) : bool :=
  match typeof v, v with
  | TObject, VNull => false
  | TObject, _ => true
  | _, _ => false
  end.

Definition isFunction (v : value) : bool :=
  match typeof v with TFunction => true | _ => false end.

Definition isString (v : value) : bool :=
  match typeof v with TString => true | _ => false end.

Definition isArray (v : value) : bool :=
  match v with VArray _ => true | _ => false end.

Definition isRegExp (v : value) : bool :=
  match v with VRegExp _ => true | _ => false end.

(** Nesting depth of a value; the recursion of [resolve] descends along it. *)
Fixpoint height (v : value) : nat :=
  match v with
  | VFunction _ ps | VObject ps =>
      S ((fix props_height (l : list (string * value)) : nat :=
            match l with
            | [] => 0
            | (_, x) :: l' => Nat.max (height x) (props_height l')
            end) ps)
  | VArray xs =>
      S ((fix elems_height (l : list value) : nat :=
            match l with
            | [] => 0
            | x :: l' => Nat.max (height x) (elems_height l')
            end) xs)
  | _ => 0
  end.

(** ** util *)

(** Modelled from the spec: [util.mapValues] is not under src/. It walks a
    mapping in enumeration order and collects [fn(value, key)] into an
    array ("every child mapping entry ... its own key"); the source applies
    it to objects and, in the fallback path, to an array. *)
Definition mapValues {B : Type} (obj : value) (fn : value -> value -> B)
  : list B :=
  map (fun kv => fn (snd kv) (VString (fst kv))) (entries obj).

(** Modelled from the spec: [util.nameObject] is not under src/. An object
    entry is annotated with its key as [name]; any other entry is handed
    back untouched, for the [isObject] filter that follows it to drop. *)
Definition nameObject (obj name : value) : value :=
  if isObject obj then
    match assign_name obj name with
    | Return o => o
    | Throw _ => obj
    end
  else obj.

(** ** Priority comparator *)

(** [typeof a.priority === 'number' ? a.priority : Number.MIN_VALUE] *)
Definition priority_of (a : value) : Number.t :=
  match get a "priority" with
  | VNumber n => n
  | _ => Number.MIN_VALUE
  end.

Definition compare (a b : value) : Number.t :=
  Number.sub (priority_of a) (priority_of b).

(** [Array.prototype.sort(comparefn)]: a stable sort; [x] is moved behind
    [y] only when [comparefn(x, y) > 0], and a NaN answer counts as 0. For
    a comparator that orders its arguments consistently every stable sort
    gives this result; for any other the language leaves the order to the
    implementation. *)
Section Sort.
Context {A : Type} (comparefn : A -> A -> Number.t).

Fixpoint insert (x : A) (l : list A) : list A :=
  match l with
  | [] => [x]
  | y :: l' =>
      if Number.gt0 (comparefn x y) then y :: insert x l' else x :: l
  end.

Definition sort (l : list A) : list A := fold_right insert [] l.
End Sort.

(** ** Route normalisation *)

Definition char_at (i : nat) (s : string) : option ascii := String.get i s.

(** [s[s.length - 1]] *)
Definition last_char (s : string) : option ascii :=
  match String.length s with
  | O => None
  | S n => char_at n s
  end.

(** [s.slice(start)] *)
Definition slice (start : nat) (s : string) : string :=
  substring start (String.length s - start) s.

Definition is_slash (c : option ascii) : bool :=
  match c with
  | Some c => Ascii.eqb c "/"
  | None => false
  end.

Definition normalize (mountpath : string) (route : value) : value :=
  if isRegExp route || isArray route then route
  else
    match route with
    | VString r =>
        let mountpath :=
          mountpath ++ (if negb (is_slash (last_char mountpath)) then "/" else "") in
        let mountpath :=
          mountpath ++ (if is_slash (char_at 0 r) then slice 1 r else r) in
        VString mountpath
    | _ => VString mountpath
    end.

(** ** Composite middleware *)

Inductive strategy : Type := Parallel | Race | Fallback.

(** What [resolve] produces: the value a factory returned, or a composite
    built by [middleware] over the tasks it was given. *)
Inductive middleware_fn : Type :=
| Plain (v : value)
| Composite (s : strategy) (tasks : list middleware_fn).

(** [!!fn] *)
Definition is_set (fn : middleware_fn) : bool :=
  match fn with
  | Plain v => truthy v
  | Composite _ _ => true
  end.

(** [middleware(requestory, fns)]: falsy entries are dropped and the rest
    become the requestors of the chosen strategy. *)
Definition middleware (requestory : strategy) (fns : list middleware_fn)
  : middleware_fn :=
  Composite requestory (filter is_set fns).

(** A buffered registration, [{ fn, spec }]. *)
Record entry : Type := { fn : middleware_fn; spec : value }.


(** [await Promise.all(fns)]: the list of results, or a rejection. When
    several children reject, [Promise.all] reports the one that settles
    first; here it is the first in array order, and nothing below depends
    on which one it is. *)
Fixpoint all {A : Type} (rs : list (result A)) : result (list A) :=
  match rs with
  | [] => Return []
  | r :: rest =>
      match r with
      | Throw e => Throw e
      | Return a =>
          match all rest with
          | Throw e => Throw e
          | Return l => Return (a :: l)
          end
      end
  end.

(** ** The host: callables, the module loader, string conversions *)

Section Host.

(** [f.apply(thisArg, args)] for the function with reference [f]. *)
Variable call : nat -> value -> list value -> result value.

(** Modelled from the spec: [util.tryResolve] is not under src/. The
    locator boundary "locate(candidateName) -> LoadedUnit", tried with the
    raw name and then with the name resolved against the base directory,
    followed by [require]: [load root name] is the loaded unit, or what
    loading throws. *)
Variable load : string -> string -> result value.

(** ToString on values that are not strings, and [JSON.stringify]. *)
Variable ToString : value -> string.
Variable JSON_stringify : value -> string.

Definition to_string (v : value) : string :=
  match v with
  | VString s => s
  | _ => ToString v
  end.

(** [f.apply(thisArg, args)] on a value. *)
Definition apply (f thisArg : value) (args : list value) : result value :=
  match f with
  | VFunction id _ => call id thisArg args
  | _ => Throw NativeTypeError
  end.

(** *** Module locator and factory binder *)

Definition findModuleMethod (config module : value) : result value :=
  let method := get config "method" in
  if truthy method then
    member <- read module (to_string method) ;;
    if truthy member && isFunction member then Return member
    else
      default <- read module "default" ;;
      if truthy default && isObject default
      then Return (get default (to_string method))
      else Return VUndefined
  else if isFunction module then Return module
  else
    default <- read module "default" ;;
    if truthy default && isFunction default then Return default
    else Return VUndefined.

Definition findModule (root : string) (config : value) : result value :=
  let name := get config "name" in
  if negb (truthy name) then
    Throw (TypeError ("Module name not defined in middleware config: "
                      ++ JSON_stringify config))
  else
    match name with
    | VString n => load root n
    | _ => Throw NativeTypeError
    end.

(** [thing.isArray(config['arguments']) ? config['arguments'] : []] *)
Definition arguments_of (config : value) : list value :=
  match get config "arguments" with
  | VArray xs => xs
  | _ => []
  end.

(** [resolveImpl] from its third test on (line 112): what it does with a
    config that is neither a function nor a string. The assignment
    [config.name = factory.name] only feeds diagnostics and is not part of
    the result. *)
Definition resolveConfig (root : string) (config : value) : result value :=
  if negb (truthy config) then
    Throw (TypeError "No module section given in middleware entry")
  else
    let factory := get config "factory" in
    fm <- (if truthy factory && isFunction factory
           then Return (factory, VUndefined)
           else
             module <- findModule root config ;;
             factory <- findModuleMethod config module ;;
             if negb (isFunction factory) then
               Throw (Error ("Unable to locate middleware in "
                             ++ to_string (get config "name")))
             else Return (factory, module)) ;;
    let args := arguments_of config in
    apply (fst fm) (snd fm) args.

(** The string case calls [resolveImpl] again on a fresh object, which
    then falls through to line 112. *)
Definition resolveImpl (root : string) (config : value) : result value :=
  match typeof config, config with
  | TFunction, _ => apply config VUndefined []
  | TString, VString s => resolveConfig root (VObject [("name", VString s)])
  | _, _ => resolveConfig root config
  end.

(** *** Spec resolver *)

Variable basedir : string.

(** [!spec.enabled && 'enabled' in spec] *)
Definition disabled (spec : value) : result bool :=
  enabled <- read spec "enabled" ;;
  if negb (truthy enabled) then has "enabled" spec else Return false.

(** The children of a fallback spec as they enter resolution (lines
    38-39): named, filtered and sorted. *)
Definition fallback_children (mapping : value) : list value :=
  sort compare (filter isObject (mapValues mapping nameObject)).

(** [await Promise.all(fns)] over child resolutions. *)
Definition await_all (rs : list (result middleware_fn * value))
  : result (list middleware_fn) :=
  all (map fst rs).

(** The body of [resolve] (lines 18-49), with the function itself as
    parameter for the calls on children. The second component is the spec
    after the call, with [spec.name] filled in; what the call writes into
    nested objects (the names of children) is not followed. *)
Definition resolve_body
           (resolve : value -> value -> result middleware_fn * value)
           (spec name : value) : result middleware_fn * value :=
  match disabled spec with
  | Throw e => (Throw e, spec)
  | Return true => (Return (Plain VUndefined), spec)
  | Return false =>
      match assign_name spec (or_else (get spec "name") name) with
      | Throw e => (Throw e, spec)
      | Return spec =>
          if truthy (get spec "parallel") then
            let fns := mapValues (get spec "parallel") resolve in
            (fns <- await_all fns ;; Return (middleware Parallel fns), spec)
          else if truthy (get spec "race") then
            let fns := mapValues (get spec "race") resolve in
            (fns <- await_all fns ;; Return (middleware Race fns), spec)
          else if truthy (get spec "fallback") then
            let fns := fallback_children (get spec "fallback") in
            let fns := mapValues (VArray fns) resolve in
            (fns <- await_all fns ;; Return (middleware Fallback fns), spec)
          else
            (fn <- resolveImpl basedir (get spec "module") ;;
             Return (Plain fn), spec)
      end
  end.

(** [resolve] calls itself on children only, which are nested strictly
    deeper, so [height spec + 1] rounds of the body reach every call. *)
Fixpoint resolve_n (fuel : nat)
  : value -> value -> result middleware_fn * value :=
  match fuel with
  | O => fun spec _ => (Throw NativeTypeError, spec)
  | S fuel => resolve_body (resolve_n fuel)
  end.

Definition resolve (spec name : value) : result middleware_fn * value :=
  resolve_n (S (height spec)) spec name.

(** *** Registration list *)

(** The specs to create (lines 210-213). *)
Definition toCreate (settings : value) : list value :=
  sort compare (filter isObject (mapValues settings nameObject)).

(** The loop of lines 215-220, with [toRegister] as accumulator. *)
Fixpoint register (specs : list value) (toRegister : list entry)
  : result (list entry) :=
  match specs with
  | [] => Return toRegister
  | spec :: rest =>
      let '(r, spec') := resolve spec (get spec "name") in
      fn <- r ;;
      register rest
        (if is_set fn
         then (toRegister ++ [{| fn := fn; spec := spec' |}])%list
         else toRegister)
  end.

(** The registration list [meddlewareImpl] has buffered when it returns
    the application. *)
Definition meddlewareImpl (settings : value) : result (list entry) :=
  register (toCreate settings) [].

(** *** Mount-time registrar *)

(** The route handed to [parent.use] (lines 234-241). *)
Definition route_of (mountpath : string) (spec : value) : value :=
  match get spec "route" with
  | VArray routes => VArray (map (normalize mountpath) routes)
  | route => normalize mountpath route
  end.


End Host.

(** ** Running a fallback composite *)

Section Request.

(** What the requestor that [taskery] builds around a task signals for the
    request at hand, [requestion(null, err)] with the argument the task
    hands to [next]: [None] when the task completes without error,
    [Some err] otherwise. *)
Variable signal : middleware_fn -> option value.

(** Modelled from the spec: [RQ.fallback] (./rq) is not under src/.
    Requestors run one after the other; the first that signals no error
    ends the run with success; after an error the next one is tried; when
    all have erred the last error is forwarded, and an empty list forwards
    no error. The result is the list of tasks invoked, in order, and what
    reaches [next]. *)
Fixpoint fallback_run (tasks : list middleware_fn) (failure : option value)
  : list middleware_fn * option value :=
  match tasks with
  | [] => ([], failure)
  | task :: rest =>
      match signal task with
      | None => ([task], None)
      | Some err =>
          let '(invoked, out) := fallback_run rest (Some err) in
          (task :: invoked, out)
      end
  end.

End Request.

(** ** The specification's wording, for comparison with the code *)

(** A mount path without its trailing separator, if it has one. *)
Fixpoint without_trailing_slash (s : string) : string :=
  match s with
  | EmptyString => EmptyString
  | String c s' =>
      match s' with
      | EmptyString => if Ascii.eqb c "/" then EmptyString else s
      | String _ _ => String c (without_trailing_slash s')
      end
  end.

(** A route without its leading separator, if it has one. *)
Definition without_leading_slash (s : string) : string :=
  match s with
  | EmptyString => EmptyString
  | String c s' => if Ascii.eqb c "/" then s' else s
  end.

(** Mount path, one separator, route. *)
Definition joined (mountpath route : string) : string :=
  without_trailing_slash mountpath ++ "/" ++ without_leading_slash route.

(** The member of a loaded unit that produces the middleware, by the four
    rules of the specification: a callable member named by the method; else
    the method member of a [default] object; without a method, the unit
    itself when callable; else a callable [default]. *)
Definition selected_member (method module : value) (key : string) : value :=
  if truthy method then
    if isFunction (get module key) then get module key
    else if isObject (get module "default")
         then get (get module "default") key
         else VUndefined
  else if isFunction module then module
  else if isFunction (get module "default") then get module "default"
  else VUndefined.


(** [typeof a.priority === 'number'] *)
Definition has_numeric_priority (a : value) : bool :=
  match get a "priority" with
  | VNumber _ => true
  | _ => false
  end.

(** A spec whose priority can be ordered: a well-formed double other than
    NaN, or none at all (then [Number.MIN_VALUE] stands in for it). *)
Definition orderable (v : value) : bool :=
  Number.valid (priority_of v) && negb (Number.is_nan (priority_of v)).

(** Ascending by priority: every spec is followed only by specs whose
    priority is at least its own. *)
Definition ascending (l : list value) : Prop :=
  StronglySorted
    (fun a b => Number.leb (priority_of a) (priority_of b) = true) l.

(** The specs of a list that have priority [p], in their order. *)
Definition with_priority (p : Number.t) (l : list value) : list value :=
  filter (fun c => Number.eqb (priority_of c) p) l.

(** ** Views of the registration, for stating what it does *)

(** What one round of the loop of lines 215-220 adds to [toRegister] for a
    resolution and the spec it leaves: nothing for a rejection or a falsy
    result. *)
Definition pushed (resolved : result middleware_fn * value) : list entry :=
  match resolved with
  | (Return fn, spec) =>
      if is_set fn then [{| fn := fn; spec := spec |}] else []
  | (Throw _, _) => []
  end.




(** ** A small host, for concrete runs *)

Module Sample.

(** Factories 0, 1 and 2 return the tasks 10, 11 and 12. Factory 3 looks
    at its call context: task 13 when there is none, task 14 otherwise. *)
Definition call (f : nat) (thisArg : value) (args : list value)
  : result value :=
  match f with
  | 0 => Return (VFunction 10 [])
  | 1 => Return (VFunction 11 [])
  | 2 => Return (VFunction 12 [])
  | 3 => match thisArg with
         | VUndefined => Return (VFunction 13 [])
         | _ => Return (VFunction 14 [])
         end
  | _ => Throw (Raised (VString "not a factory"))
  end.

(** One module, "x", whose default export is factory 3. *)
Definition unit_x : value := VObject [("default", VFunction 3 [])].

Definition load (root name : string) : result value :=
  if name =? "x" then Return unit_x
  else Throw (Raised (VString "MODULE_NOT_FOUND")).

Definition ToString (v : value) : string := "[object Object]".
Definition JSON_stringify (v : value) : string := "{}".

Definition basedir : string := "/app".

Definition resolve := resolve call load ToString JSON_stringify basedir.
Definition resolveImpl := resolveImpl call load ToString JSON_stringify.
Definition meddlewareImpl :=
  meddlewareImpl call load ToString JSON_stringify basedir.

Definition number (z : Z) : value := VNumber (Number.of_Z z).

(** For one request: task 10 fails, task 11 completes, task 12 would
    complete as well. *)
Definition signal (task : middleware_fn) : option value :=
  match task with
  | Plain (VFunction 10 _) => Some (VString "unavailable")
  | _ => None
  end.

(** fallback: priority 2 (fails), priority 1 (succeeds), priority 3. *)
Definition fallback_spec : value :=
  VObject
    [("fallback",
      VObject
        [("second", VObject [("priority", number 2); ("module", VFunction 0 [])]);
         ("first", VObject [("priority", number 1); ("module", VFunction 1 [])]);
         ("third", VObject [("priority", number 3); ("module", VFunction 2 [])])])].

End Sample.

(** * Properties *)

(** ** Property lists *)

Lemma lookup_update_other (k k' : string) (v : value) (ps : list (string * value)) :
  k <> k' -> lookup k (update k' v ps) = lookup k ps.
Proof.
  intros Hk. induction ps as [|[k0 v0] ps IH]; simpl.
  - destruct (String.eqb_spec k' k); congruence.
  - destruct (String.eqb_spec k0 k') as [->|Hne]; simpl.
    + destruct (String.eqb_spec k' k); congruence.
    + destruct (String.eqb_spec k0 k); congruence.
Qed.


Lemma lookup_In (k : string) (ps : list (string * value)) (v : value) :
  lookup k ps = Some v -> In (k, v) ps.
Proof.
  induction ps as [|[k0 v0] ps IH]; simpl; [discriminate|].
  destruct (String.eqb_spec k0 k) as [->|Hne].
  - intros [= ->]. now left.
  - intros H. right. auto.
Qed.

(** ** Nesting depth *)

Lemma height_props (k : string) (v : value) (ps : list (string * value)) :
  In (k, v) ps -> height v < height (VObject ps).
Proof.
  induction ps as [|[k0 v0] ps IH]; simpl; [tauto|].
  intros [[= -> ->]|Hin].
  - lia.
  - specialize (IH Hin). simpl in IH. lia.
Qed.

Lemma height_elems (v : value) (xs : list value) :
  In v xs -> height v < height (VArray xs).
Proof.
  induction xs as [|x xs IH]; simpl; [tauto|].
  intros [->|Hin].
  - lia.
  - specialize (IH Hin). simpl in IH. lia.
Qed.

Lemma array_entries_In (k : string) (v : value) (xs : list value) :
  In (k, v) (array_entries xs) -> In v xs.
Proof. unfold array_entries. apply in_combine_r. Qed.

Lemma height_entries (k : string) (v o : value) :
  In (k, v) (entries o) -> height v < height o.
Proof.
  destruct o; simpl; try tauto.
  - apply (height_props k v props).
  - intros H. apply height_elems. eapply array_entries_In; eauto.
  - apply height_props.
Qed.

Lemma height_get (o : value) (k : string) : height (get o k) <= height o.
Proof.
  unfold get. destruct o; simpl; try lia.
  - destruct (lookup k props) eqn:E; simpl; [|lia].
    apply lookup_In in E. apply (height_props k v props) in E. simpl in E. lia.
  - destruct (k =? "length"); simpl; [lia|].
    destruct (lookup k (array_entries elems)) eqn:E; simpl; [|lia].
    apply lookup_In, array_entries_In, height_elems in E. simpl in E. lia.
  - destruct (lookup k props) eqn:E; simpl; [|lia].
    apply lookup_In in E. apply (height_props k v props) in E. simpl in E. lia.
Qed.

Lemma height_update_leaf (k s : string) (ps : list (string * value)) :
  height (VObject (update k (VString s) ps)) <= height (VObject ps).
Proof.
  induction ps as [|[k0 v0] ps IH]; simpl in *.
  - lia.
  - destruct (k0 =? k); simpl; lia.
Qed.

Lemma height_nameObject (v : value) (k : string) :
  height (nameObject v (VString k)) <= height v.
Proof.
  unfold nameObject. destruct (isObject v); [|lia].
  destruct v; simpl assign_name; try lia.
  apply height_update_leaf.
Qed.

(** Reading any property but [name] is unaffected by the assignment to
    [spec.name]. *)
Lemma get_assign_name (spec spec' v : value) (k : string) :
  k <> "name" -> assign_name spec v = Return spec' -> get spec' k = get spec k.
Proof.
  intros Hk. destruct spec; simpl; try discriminate; intros [= <-]; auto.
  unfold get. simpl. now rewrite lookup_update_other.
Qed.

(** ** The sort *)

Section SortFacts.
Context {A : Type} (comparefn : A -> A -> Number.t).

Lemma insert_perm (x : A) (l : list A) :
  Permutation (x :: l) (insert comparefn x l).
Proof.
  induction l as [|y l IH]; simpl; [reflexivity|].
  destruct (Number.gt0 (comparefn x y)); [|reflexivity].
  rewrite perm_swap. now apply perm_skip.
Qed.

Lemma sort_perm (l : list A) : Permutation l (sort comparefn l).
Proof.
  induction l as [|x l IH]; simpl; [reflexivity|].
  rewrite <- insert_perm. now apply perm_skip.
Qed.

Lemma sort_In (x : A) (l : list A) : In x (sort comparefn l) <-> In x l.
Proof.
  split; apply Permutation_in; [symmetry|]; apply sort_perm.
Qed.
End SortFacts.

(** ** The resolver satisfies its recursive equation *)

Section ResolveFacts.
Variable call : nat -> value -> list value -> result value.
Variable load : string -> string -> result value.
Variable ToString : value -> string.
Variable JSON_stringify : value -> string.
Variable basedir : string.

Let body := resolve_body call load ToString JSON_stringify basedir.
Let resolve_at := resolve_n call load ToString JSON_stringify basedir.
Let resolve' := resolve call load ToString JSON_stringify basedir.

Lemma mapValues_ext {B : Type} (m : value) (f g : value -> value -> B) :
  (forall k c, In (k, c) (entries m) -> f c (VString k) = g c (VString k)) ->
  mapValues m f = mapValues m g.
Proof.
  intros H. unfold mapValues. apply map_ext_in. intros [k c] Hin. now apply H.
Qed.

Lemma fallback_children_height (m c : value) :
  In c (fallback_children m) -> height c < height m.
Proof.
  unfold fallback_children. rewrite sort_In, filter_In.
  intros [Hin _]. unfold mapValues in Hin. apply in_map_iff in Hin.
  destruct Hin as [[k v] [<- Hin]]. simpl.
  apply height_entries in Hin. pose proof (height_nameObject v k). lia.
Qed.

Lemma resolve_body_ext f g (spec name : value) :
  (forall c k, height c < height spec -> f c k = g c k) ->
  body f spec name = body g spec name.
Proof.
  intros H. unfold body, resolve_body.
  destruct (disabled spec) as [[|]|]; auto.
  destruct (assign_name spec _) as [spec1|] eqn:Ha; auto.
  assert (Hget : forall k, k <> "name" -> height (get spec1 k) <= height spec).
  { intros k Hk. rewrite (get_assign_name _ _ _ _ Hk Ha). apply height_get. }
  assert (Hp := Hget "parallel" ltac:(discriminate)).
  assert (Hr := Hget "race" ltac:(discriminate)).
  assert (Hf := Hget "fallback" ltac:(discriminate)).
  destruct (truthy (get spec1 "parallel")).
  { rewrite (mapValues_ext _ f g); auto.
    intros k c Hin. apply H. apply height_entries in Hin. lia. }
  destruct (truthy (get spec1 "race")).
  { rewrite (mapValues_ext _ f g); auto.
    intros k c Hin. apply H. apply height_entries in Hin. lia. }
  destruct (truthy (get spec1 "fallback")); auto.
  rewrite (mapValues_ext _ f g); auto.
  intros k c Hin. apply H. simpl in Hin.
  apply array_entries_In, fallback_children_height in Hin. lia.
Qed.

Lemma resolve_n_fuel (n m : nat) (spec name : value) :
  height spec < n -> height spec < m ->
  resolve_at n spec name = resolve_at m spec name.
Proof.
  revert m spec name. induction n as [|n IH]; intros m spec name Hn Hm; [lia|].
  destruct m as [|m]; [lia|]. simpl.
  apply resolve_body_ext. intros c k Hc. apply IH; lia.
Qed.

(** [resolve] is the function of lines 18-49: it satisfies the equation
    whose right-hand side is the body applied to [resolve] itself. *)
Lemma resolve_unfold (spec name : value) :
  resolve' spec name = body resolve' spec name.
Proof.
  unfold resolve'.
  transitivity (body (resolve_at (height spec)) spec name); [reflexivity|].
  apply resolve_body_ext. intros c k Hc. unfold resolve.
  apply (resolve_n_fuel (height spec) (S (height c))); lia.
Qed.

End ResolveFacts.

(** ** Route normalisation *)

Lemma append_assoc (a b c : string) : (a ++ b) ++ c = a ++ (b ++ c).
Proof. induction a as [|x a IH]; simpl; congruence. Qed.

Lemma append_empty_r (a : string) : a ++ "" = a.
Proof. induction a as [|x a IH]; simpl; congruence. Qed.

Lemma substring_all (s : string) : substring 0 (String.length s) s = s.
Proof. induction s as [|c s IH]; simpl; congruence. Qed.

Lemma last_char_cons (c : ascii) (s : string) :
  last_char (String c s) =
  match s with EmptyString => Some c | String _ _ => last_char s end.
Proof.
  unfold last_char, char_at. simpl. destruct s as [|d s]; reflexivity.
Qed.

(** A string is its stem followed by the separator it ends with. *)
Lemma trailing_slash_split (s : string) :
  s = without_trailing_slash s ++ (if is_slash (last_char s) then "/" else "").
Proof.
  induction s as [|c s IH]; [reflexivity|].
  rewrite last_char_cons. destruct s as [|d s].
  - simpl. destruct (Ascii.eqb_spec c "/") as [->|]; reflexivity.
  - change (without_trailing_slash (String c (String d s)))
      with (String c (without_trailing_slash (String d s))).
    change (String c (String d s)
            = String c (without_trailing_slash (String d s)
                        ++ (if is_slash (last_char (String d s)) then "/" else ""))).
    f_equal. exact IH.
Qed.

Lemma leading_slash_strip (r : string) :
  (if is_slash (char_at 0 r) then slice 1 r else r) = without_leading_slash r.
Proof.
  destruct r as [|c r]; [reflexivity|].
  unfold char_at, slice. simpl.
  destruct (Ascii.eqb c "/"); [|reflexivity].
  now rewrite Nat.sub_0_r, substring_all.
Qed.

Lemma normalize_string (mountpath route : string) :
  normalize mountpath (VString route) = VString (joined mountpath route).
Proof.
  unfold normalize, joined. simpl. f_equal.
  rewrite leading_slash_strip.
  pose proof (trailing_slash_split mountpath) as E.
  destruct (is_slash (last_char mountpath)); simpl negb; cbv iota.
  - rewrite append_empty_r. rewrite E at 1. apply append_assoc.
  - rewrite append_empty_r in E. rewrite E at 1. apply append_assoc.
Qed.

(** C8. For a string mount path and a string route, [normalize] yields the
    mount path without its trailing separator (if any), one separator, and
    the route without its leading separator (if any): a separator is added
    when the mount path lacks one, a leading separator of the route is
    dropped; '/api' with '/users' and '/api/' with 'users' both give
    '/api/users'. *)
Theorem normalize_one_separator (mountpath route : string) :
  normalize mountpath (VString route) = VString (joined mountpath route)
  /\ mountpath
     = without_trailing_slash mountpath
       ++ (if is_slash (last_char mountpath) then "/" else "")
  /\ route
     = (if is_slash (char_at 0 route) then "/" else "")
       ++ without_leading_slash route
  /\ normalize mountpath (VString route)
     = VString (mountpath
                ++ (if is_slash (last_char mountpath) then "" else "/")
                ++ without_leading_slash route)
  /\ normalize "/api" (VString "/users") = VString "/api/users"
  /\ normalize "/api/" (VString "users") = VString "/api/users".
Proof.
  split; [apply normalize_string|].
  split; [apply trailing_slash_split|].
  split.
  { destruct route as [|c r]; [reflexivity|].
    unfold char_at. simpl. destruct (Ascii.eqb_spec c "/") as [->|]; reflexivity. }
  split; [|split; reflexivity].
  unfold normalize. simpl. rewrite leading_slash_strip, append_assoc.
  now destruct (is_slash (last_char mountpath)).
Qed.

(** C9, as amended. A route that is a regular expression or an array comes
    back unchanged; for any other route that is not a string (absent, a
    number, ...) [normalize] returns the mount path, unchanged, so that the
    middleware is registered at the mount path itself. *)
Theorem normalize_non_string (mountpath : string) (route : value) :
  isString route = false ->
  (isRegExp route || isArray route = true -> normalize mountpath route = route)
  /\ (isRegExp route || isArray route = false ->
      normalize mountpath route = VString mountpath).
Proof.
  intros Hs. unfold normalize. split; intros ->; [reflexivity|].
  destruct route; try reflexivity. discriminate.
Qed.

Lemma normalize_non_string_witness :
  normalize "/api" (VRegExp "^/v[0-9]+") = VRegExp "^/v[0-9]+"
  /\ normalize "/api" (VNumber (Number.of_Z 7)) = VString "/api".
Proof.
  split.
  - apply (proj1 (normalize_non_string "/api" (VRegExp "^/v[0-9]+") eq_refl)).
    reflexivity.
  - apply (proj2 (normalize_non_string "/api" (VNumber (Number.of_Z 7)) eq_refl)).
    reflexivity.
Defined.

(** C9, as stated, fails: an absent route is not a string, and [normalize]
    answers with the mount path instead of handing it back. *)
Lemma normalize_absent_route :
  isString VUndefined = false
  /\ normalize "/api" VUndefined = VString "/api"
  /\ normalize "/api" VUndefined <> VUndefined.
Proof. repeat split. discriminate. Qed.

(** ** Module locator and factory binder *)

Section ResolveImplFacts.
Variable call : nat -> value -> list value -> result value.
Variable load : string -> string -> result value.
Variable ToString : value -> string.
Variable JSON_stringify : value -> string.
Variable root : string.

Let resolveImpl' := resolveImpl call load ToString JSON_stringify root.
Let resolveConfig' := resolveConfig call load ToString JSON_stringify root.

Lemma resolveImpl_object (config : value) :
  isFunction config = false -> isString config = false ->
  resolveImpl' config = resolveConfig' config.
Proof. destruct config; simpl; intros; try discriminate; reflexivity. Qed.

(** Reading members of a loaded unit that is neither null nor undefined. *)
Lemma read_get (o : value) (k : string) :
  o <> VUndefined -> o <> VNull -> read o k = Return (get o k).
Proof. destruct o; simpl; congruence. Qed.

Lemma isFunction_truthy (v : value) : isFunction v = true -> truthy v = true.
Proof. destruct v; cbv; congruence. Qed.

Lemma isObject_truthy (v : value) : isObject v = true -> truthy v = true.
Proof. destruct v; cbv; congruence. Qed.

Lemma findModuleMethod_selected (config module : value) :
  module <> VUndefined -> module <> VNull ->
  findModuleMethod ToString config module
  = Return (selected_member (get config "method") module
              (to_string ToString (get config "method"))).
Proof.
  intros Hu Hn. unfold findModuleMethod, selected_member.
  destruct (truthy (get config "method")).
  - rewrite !read_get by assumption. simpl.
    destruct (isFunction (get module _)) eqn:Ef.
    + now rewrite (isFunction_truthy _ Ef).
    + rewrite andb_false_r.
      destruct (isObject (get module "default")) eqn:Eo.
      * now rewrite (isObject_truthy _ Eo).
      * now rewrite andb_false_r.
  - destruct (isFunction module); [reflexivity|].
    rewrite read_get by assumption. simpl.
    destruct (isFunction (get module "default")) eqn:Ef.
    + now rewrite (isFunction_truthy _ Ef).
    + now rewrite andb_false_r.
Qed.

(** A config object that names a module and has no factory of its own
    goes through the loader. *)
Lemma resolveConfig_located (config module : value) (name : string) :
  isFunction (get config "factory") = false ->
  get config "name" = VString name -> name <> "" ->
  load root name = Return module ->
  resolveConfig' config
  = (factory <- findModuleMethod ToString config module ;;
     if negb (isFunction factory)
     then Throw (Error ("Unable to locate middleware in " ++ name))
     else apply call factory module (arguments_of config)).
Proof.
  intros Hf Hname Hne Hload.
  unfold resolveConfig', resolveConfig.
  assert (Ht : truthy config = true).
  { destruct config; try reflexivity; simpl in Hname; discriminate. }
  rewrite Ht, Hf, andb_false_r. simpl.
  unfold findModule. rewrite Hname. simpl.
  destruct (String.eqb_spec name ""); [contradiction|]. simpl.
  rewrite Hload. simpl.
  destruct (findModuleMethod ToString config module) as [factory|]; simpl; auto.
  destruct (isFunction factory); reflexivity.
Qed.


(** C5, as amended. A falsy config that is not a string (false, null,
    undefined, 0, NaN) fails with the TypeError "No module section given in
    middleware entry". Every string config, the empty one included, behaves
    as [resolveImpl(root, {name: config})]; for the empty string that is
    the TypeError "Module name not defined in middleware config: ...". *)
Theorem resolveImpl_falsy_or_string :
  (forall config : value,
      truthy config = false -> isString config = false ->
      resolveImpl' config
      = Throw (TypeError "No module section given in middleware entry"))
  /\ (forall s : string,
         resolveImpl' (VString s)
         = resolveImpl' (VObject [("name", VString s)]))
  /\ resolveImpl' (VString "")
     = Throw (TypeError ("Module name not defined in middleware config: "
                         ++ JSON_stringify (VObject [("name", VString "")]))).
Proof.
  repeat split.
  - intros config Ht Hs.
    rewrite resolveImpl_object; auto.
    + unfold resolveConfig', resolveConfig. now rewrite Ht.
    + destruct config; try reflexivity. discriminate.
Qed.

(** C6. For a config object that names a module and has no factory of its
    own, and a loaded unit other than null and undefined, the candidate
    [findModuleMethod] returns is the member selected by the four rules;
    when that candidate is not callable, [resolveImpl] throws the Error
    "Unable to locate middleware in " followed by the configured name, and
    when it is, [resolveImpl] is its call. *)
Theorem module_member_selection (config module : value) (name : string) :
  isFunction config = false ->
  isFunction (get config "factory") = false ->
  get config "name" = VString name -> name <> "" ->
  load root name = Return module ->
  module <> VUndefined -> module <> VNull ->
  let method := get config "method" in
  let candidate := selected_member method module (to_string ToString method) in
  findModuleMethod ToString config module = Return candidate
  /\ (isFunction candidate = false ->
      resolveImpl' config
      = Throw (Error ("Unable to locate middleware in " ++ name)))
  /\ (isFunction candidate = true ->
      resolveImpl' config
      = apply call candidate module (arguments_of config)).
Proof.
  intros Hc Hf Hname Hne Hload Hu Hn method candidate.
  pose proof (findModuleMethod_selected config module Hu Hn) as Hsel.
  fold method in Hsel. fold candidate in Hsel.
  split; [exact Hsel|].
  assert (Hs : isString config = false).
  { destruct config; try reflexivity. discriminate. }
  rewrite (resolveImpl_object config Hc Hs).
  rewrite (resolveConfig_located config module name Hf Hname Hne Hload).
  rewrite Hsel. simpl.
  split; intros ->; reflexivity.
Qed.


End ResolveImplFacts.

Lemma resolveImpl_falsy_or_string_witness :
  Sample.resolveImpl "/app" VNull
  = Throw (TypeError "No module section given in middleware entry").
Proof.
  apply (proj1 (resolveImpl_falsy_or_string
                  Sample.call Sample.load Sample.ToString
                  Sample.JSON_stringify "/app")); reflexivity.
Defined.

(** C5, as stated, fails on the empty string: it is falsy, and the error
    is the one about the missing module name. *)
Lemma resolveImpl_empty_string :
  truthy (VString "") = false
  /\ Sample.resolveImpl "/app" (VString "")
     = Throw (TypeError ("Module name not defined in middleware config: "
                         ++ Sample.JSON_stringify (VObject [("name", VString "")])))
  /\ Sample.resolveImpl "/app" (VString "")
     <> Throw (TypeError "No module section given in middleware entry").
Proof. repeat split. discriminate. Qed.

Lemma module_member_selection_witness :
  findModuleMethod Sample.ToString (VObject [("name", VString "x")]) Sample.unit_x
  = Return (VFunction 3 [])
  /\ Sample.resolveImpl "/app"
       (VObject [("name", VString "x"); ("method", VString "create")])
     = Throw (Error "Unable to locate middleware in x").
Proof.
  split.
  - apply (module_member_selection
             Sample.call Sample.load Sample.ToString Sample.JSON_stringify "/app"
             (VObject [("name", VString "x")]) Sample.unit_x "x");
      try reflexivity; discriminate.
  - apply (module_member_selection
             Sample.call Sample.load Sample.ToString Sample.JSON_stringify "/app"
             (VObject [("name", VString "x"); ("method", VString "create")])
             Sample.unit_x "x");
      try reflexivity; discriminate.
Defined.



(** ** Resolution and the registration list *)

Section RegistrationFacts.
Variable call : nat -> value -> list value -> result value.
Variable load : string -> string -> result value.
Variable ToString : value -> string.
Variable JSON_stringify : value -> string.
Variable basedir : string.

Let resolve' := resolve call load ToString JSON_stringify basedir.
Let register' := register call load ToString JSON_stringify basedir.
Let meddlewareImpl' := meddlewareImpl call load ToString JSON_stringify basedir.

Lemma resolve_eq (spec name : value) :
  resolve' spec name
  = resolve_body call load ToString JSON_stringify basedir resolve' spec name.
Proof. apply resolve_unfold. Qed.

(** An object whose [enabled] key is present with a falsy value. *)
Lemma disabled_object (props : list (string * value)) (v : value) :
  lookup "enabled" props = Some v -> truthy v = false ->
  disabled (VObject props) = Return true.
Proof.
  intros Hl Ht. unfold disabled, read, get, has. simpl. now rewrite Hl, Ht.
Qed.

Lemma resolve_disabled (spec name : value) :
  disabled spec = Return true ->
  resolve' spec name = (Return (Plain VUndefined), spec).
Proof. intros H. rewrite resolve_eq. unfold resolve_body. now rewrite H. Qed.


Lemma disabled_assign_name (spec spec1 v : value) :
  assign_name spec v = Return spec1 -> disabled spec1 = disabled spec.
Proof.
  destruct spec; simpl; try discriminate; intros [= <-]; auto.
  unfold disabled, read, get, has. simpl.
  now rewrite lookup_update_other by discriminate.
Qed.

(** A spec that resolved to something is left enabled. *)
Lemma resolve_returns_enabled (spec name spec1 : value) (fn : middleware_fn) :
  resolve' spec name = (Return fn, spec1) -> is_set fn = true ->
  disabled spec1 = Return false.
Proof.
  rewrite resolve_eq. unfold resolve_body.
  destruct (disabled spec) as [[|]|] eqn:Hd.
  - intros [= <- <-]. discriminate.
  - destruct (assign_name spec _) as [s1|] eqn:Ha; [|discriminate].
    intros Hr _. rewrite <- Hd. 
    assert (s1 = spec1) as <-.
    { destruct (truthy (get s1 "parallel")); [now inversion Hr|].
      destruct (truthy (get s1 "race")); [now inversion Hr|].
      destruct (truthy (get s1 "fallback")); now inversion Hr. }
    eapply disabled_assign_name; eauto.
  - discriminate.
Qed.

Lemma register_invariant (P : entry -> Prop) (specs : list value) :
  forall (acc entries : list entry),
    (forall spec name fn spec1,
        In spec specs -> resolve' spec name = (Return fn, spec1) ->
        is_set fn = true -> P {| fn := fn; spec := spec1 |}) ->
    Forall P acc ->
    register' specs acc = Return entries -> Forall P entries.
Proof.
  induction specs as [|s specs IH]; intros acc entries Hstep Hacc; simpl.
  - now intros [= <-].
  - unfold register'. simpl. fold register'.
    destruct (resolve call load ToString JSON_stringify basedir s (get s "name"))
      as [r s1] eqn:Hr.
    destruct r as [f|]; simpl; [|discriminate].
    apply IH.
    + intros spec name fn0 spec1 Hin. apply Hstep. now right.
    + destruct (is_set f) eqn:Hset; [|exact Hacc].
      apply Forall_app. split; [exact Hacc|].
      constructor; [|constructor].
      apply (Hstep s (get s "name")); auto. now left.
Qed.

(** C1. A spec object whose [enabled] key is present with a falsy value
    resolves to undefined and is left as it is; the loop over the specs to
    create adds nothing for it to the registration list; and no entry of a
    registration list holds a disabled spec. *)
Theorem disabled_spec_pruned
        (props : list (string * value)) (v name : value) :
  lookup "enabled" props = Some v -> truthy v = false ->
  resolve' (VObject props) name = (Return (Plain VUndefined), VObject props)
  /\ is_set (Plain VUndefined) = false
  /\ (forall (rest : list value) (toRegister : list entry),
         register' (VObject props :: rest) toRegister
         = register' rest toRegister)
  /\ (forall (settings : value) (entries : list entry),
         meddlewareImpl' settings = Return entries ->
         Forall (fun e => disabled (spec e) = Return false) entries).
Proof.
  intros Hl Ht.
  pose proof (disabled_object props v Hl Ht) as Hd.
  split; [now apply resolve_disabled|].
  split; [reflexivity|].
  split.
  - intros rest acc. unfold register'. simpl.
    fold resolve'. rewrite (resolve_disabled _ _ Hd). reflexivity.
  - intros settings entries. unfold meddlewareImpl', meddlewareImpl.
    apply register_invariant; [|constructor].
    intros s n f s1 _ Hr Hset. simpl.
    eapply resolve_returns_enabled; eauto.
Qed.

End RegistrationFacts.

Lemma disabled_spec_pruned_witness :
  Sample.resolve (VObject [("enabled", VBool false); ("module", VString "x")])
                 (VString "session")
  = (Return (Plain VUndefined),
     VObject [("enabled", VBool false); ("module", VString "x")]).
Proof.
  apply (disabled_spec_pruned
           Sample.call Sample.load Sample.ToString Sample.JSON_stringify
           Sample.basedir
           [("enabled", VBool false); ("module", VString "x")]
           (VBool false) (VString "session")); reflexivity.
Defined.

(** ** Entries that are not objects *)

Lemma isObject_nameObject (v name : value) :
  isObject (nameObject v name) = isObject v.
Proof.
  unfold nameObject. destruct (isObject v) eqn:E; [|exact E].
  destruct v; simpl in *; try discriminate; reflexivity.
Qed.



Lemma named_objects_In (m c : value) :
  In c (filter isObject (mapValues m nameObject)) <->
  exists k v, In (k, v) (entries m) /\ isObject v = true
              /\ c = nameObject v (VString k).
Proof.
  rewrite filter_In. unfold mapValues. rewrite in_map_iff. split.
  - intros [[[k v] [<- Hin]] Ho]. simpl in *.
    rewrite isObject_nameObject in Ho. eauto.
  - intros (k & v & Hin & Ho & ->). split.
    + exists (k, v). auto.
    + now rewrite isObject_nameObject.
Qed.

Section SettingsFacts.
Variable call : nat -> value -> list value -> result value.
Variable load : string -> string -> result value.
Variable ToString : value -> string.
Variable JSON_stringify : value -> string.
Variable basedir : string.

Let meddlewareImpl' := meddlewareImpl call load ToString JSON_stringify basedir.


End SettingsFacts.

(** ** Children of a combinator *)

Section ChildrenFacts.
Variable call : nat -> value -> list value -> result value.
Variable load : string -> string -> result value.
Variable ToString : value -> string.
Variable JSON_stringify : value -> string.
Variable basedir : string.

Let resolve' := resolve call load ToString JSON_stringify basedir.




End ChildrenFacts.



(** ** Doubles: order, rounding and subtraction *)

Local Open Scope Z_scope.

Module NumberFacts.

(** Linear arithmetic with the powers of two taken as unknowns. *)
Ltac atoms :=
  repeat match goal with
         | |- context [2 ^ ?k] =>
             let P := fresh "P" in set (P := 2 ^ k) in *; clearbody P
         | H : context [2 ^ ?k] |- _ =>
             let P := fresh "P" in set (P := 2 ^ k) in *; clearbody P
         end;
  lia.

Lemma digits2_bounds (m : positive) :
  2 ^ (Zpos (digits2_pos m) - 1) <= Zpos m < 2 ^ Zpos (digits2_pos m).
Proof.
  induction m as [m IH|m IH|]; simpl digits2_pos.
  - rewrite Pos2Z.inj_succ. change (Zpos m~1) with (2 * Zpos m + 1).
    replace (Z.succ (Zpos (digits2_pos m)) - 1) with (Z.succ (Zpos (digits2_pos m) - 1)) by lia.
    rewrite !Z.pow_succ_r by lia. atoms.
  - rewrite Pos2Z.inj_succ. change (Zpos m~0) with (2 * Zpos m).
    replace (Z.succ (Zpos (digits2_pos m)) - 1) with (Z.succ (Zpos (digits2_pos m) - 1)) by lia.
    rewrite !Z.pow_succ_r by lia. atoms.
  - simpl. lia.
Qed.

Lemma fexp_eq (x : Z) : fexp Number.prec Number.emax x = Z.max (x - 53) (-1074).
Proof. reflexivity. Qed.

Lemma pow2_pos (k : Z) : 0 <= k -> 0 < 2 ^ k.
Proof. intros. apply Z.pow_pos_nonneg; lia. Qed.

Lemma pow2_le (a b : Z) : 0 <= a <= b -> 2 ^ a <= 2 ^ b.
Proof. intros. apply Z.pow_le_mono_r; lia. Qed.

(** What validity says about a finite double. *)
Lemma valid_finite (s : bool) (m : positive) (e : Z) :
  Number.valid (S754_finite s m e) = true ->
  -1074 <= e <= 971 /\ Zpos m < 2 ^ 53 /\ (-1074 < e -> 2 ^ 52 <= Zpos m).
Proof.
  unfold Number.valid, valid_binary, bounded, canonical_mantissa.
  rewrite andb_true_iff, Z.eqb_eq, Z.leb_le, fexp_eq.
  change (Number.emax - Number.prec) with 971.
  intros [Hc He]. pose proof (digits2_bounds m) as [Hlo Hhi].
  assert (Hd : Zpos (digits2_pos m) <= 53) by lia.
  split; [lia|]. split.
  - eapply Z.lt_le_trans; [exact Hhi|]. apply pow2_le. lia.
  - intros Hn. assert (Zpos (digits2_pos m) = 53) as Hd' by lia.
    rewrite Hd' in Hlo. exact Hlo.
Qed.

Lemma mag_pos (m : positive) (e : Z) : -1074 <= e -> 0 < Number.mag m e.
Proof.
  intros He. unfold Number.mag. apply Z.mul_pos_pos; [lia|]. apply pow2_pos. lia.
Qed.

Lemma mag_big (s : bool) (m : positive) (e : Z) :
  Number.valid (S754_finite s m e) = true -> Number.mag m e < 2 ^ 2100.
Proof.
  intros Hv. apply valid_finite in Hv. destruct Hv as (He & Hm & _).
  unfold Number.mag.
  apply Z.lt_le_trans with (2 ^ 53 * 2 ^ (e + 1074)).
  - apply Z.mul_lt_mono_pos_r; [apply pow2_pos; lia|exact Hm].
  - rewrite <- Z.pow_add_r by lia. apply pow2_le. lia.
Qed.

Lemma mag_lt_exp (s1 s2 : bool) (m1 m2 : positive) (e1 e2 : Z) :
  Number.valid (S754_finite s1 m1 e1) = true ->
  Number.valid (S754_finite s2 m2 e2) = true ->
  e1 < e2 -> Number.mag m1 e1 < Number.mag m2 e2.
Proof.
  intros H1 H2 Hlt.
  apply valid_finite in H1. destruct H1 as (He1 & Hm1 & _).
  apply valid_finite in H2. destruct H2 as (He2 & _ & Hm2).
  specialize (Hm2 ltac:(lia)). unfold Number.mag.
  apply Z.lt_le_trans with (2 ^ 53 * 2 ^ (e1 + 1074)).
  - apply Z.mul_lt_mono_pos_r; [apply pow2_pos; lia|exact Hm1].
  - apply Z.le_trans with (2 ^ 52 * 2 ^ (e2 + 1074)).
    + rewrite <- !Z.pow_add_r by lia. apply pow2_le. lia.
    + apply Z.mul_le_mono_nonneg_r; [|exact Hm2].
      apply Z.lt_le_incl, pow2_pos. lia.
Qed.

Lemma mag_compare (s1 s2 : bool) (m1 m2 : positive) (e1 e2 : Z) :
  Number.valid (S754_finite s1 m1 e1) = true ->
  Number.valid (S754_finite s2 m2 e2) = true ->
  match e1 ?= e2 with
  | Lt => Lt
  | Gt => Gt
  | Eq => Pos.compare_cont Eq m1 m2
  end = (Number.mag m1 e1 ?= Number.mag m2 e2).
Proof.
  intros H1 H2. symmetry.
  destruct (Z.compare_spec e1 e2) as [->|Hlt|Hgt].
  - assert (HK : 0 < 2 ^ (e2 + 1074)).
    { apply pow2_pos. apply valid_finite in H2. lia. }
    unfold Number.mag. change (Pos.compare_cont Eq m1 m2) with (m1 ?= m2)%positive.
    destruct (Pos.compare_spec m1 m2) as [->|Hm|Hm].
    + apply Z.compare_refl.
    + apply Z.compare_lt_iff, Z.mul_lt_mono_pos_r; [exact HK|lia].
    + apply Z.compare_gt_iff, Z.mul_lt_mono_pos_r; [exact HK|lia].
  - apply Z.compare_lt_iff. eapply mag_lt_exp; eauto.
  - apply Z.compare_gt_iff. eapply mag_lt_exp; eauto.
Qed.

(** On well-formed doubles other than NaN, IEEE comparison is the order of
    the positions. *)
Lemma compare_ord (x y : Number.t) :
  Number.valid x = true -> Number.valid y = true ->
  Number.is_nan x = false -> Number.is_nan y = false ->
  SFcompare x y = Some (Number.ord x ?= Number.ord y).
Proof.
  intros Vx Vy Nx Ny.
  assert (Hbig : 0 < 2 ^ 2100) by (apply pow2_pos; lia).
  destruct x as [sx|sx| |sx mx ex], y as [sy|sy| |sy my ey];
    try discriminate; cbn [SFcompare Number.ord]; f_equal; symmetry.
  - destruct sy; cbn [cond_Zopp];
      [apply Z.compare_gt_iff|apply Z.compare_lt_iff]; lia.
  - pose proof (mag_pos my ey ltac:(apply valid_finite in Vy; lia)) as Hy.
    fold (Number.mag my ey).
    destruct sy; cbn [cond_Zopp];
      [apply Z.compare_gt_iff|apply Z.compare_lt_iff]; lia.
  - destruct sx; cbn [cond_Zopp];
      [apply Z.compare_lt_iff|apply Z.compare_gt_iff]; lia.
  - destruct sx, sy; cbn [cond_Zopp];
      [apply Z.compare_eq_iff|apply Z.compare_lt_iff
       |apply Z.compare_gt_iff|apply Z.compare_eq_iff]; lia.
  - pose proof (mag_pos my ey ltac:(apply valid_finite in Vy; lia)) as Hy.
    pose proof (mag_big _ _ _ Vy) as Hb. fold (Number.mag my ey).
    destruct sx, sy; cbn [cond_Zopp];
      [apply Z.compare_lt_iff|apply Z.compare_lt_iff
       |apply Z.compare_gt_iff|apply Z.compare_gt_iff]; lia.
  - pose proof (mag_pos mx ex ltac:(apply valid_finite in Vx; lia)) as Hx.
    fold (Number.mag mx ex).
    destruct sx; cbn [cond_Zopp];
      [apply Z.compare_lt_iff|apply Z.compare_gt_iff]; lia.
  - pose proof (mag_pos mx ex ltac:(apply valid_finite in Vx; lia)) as Hx.
    pose proof (mag_big _ _ _ Vx) as Hb. fold (Number.mag mx ex).
    destruct sx, sy; cbn [cond_Zopp];
      [apply Z.compare_gt_iff|apply Z.compare_lt_iff
       |apply Z.compare_gt_iff|apply Z.compare_lt_iff]; lia.
  - pose proof (mag_pos mx ex ltac:(apply valid_finite in Vx; lia)) as Hx.
    pose proof (mag_pos my ey ltac:(apply valid_finite in Vy; lia)) as Hy.
    fold (Number.mag mx ex) (Number.mag my ey).
    destruct sx, sy; cbn [cond_Zopp].
    + rewrite Z.compare_opp, <- (mag_compare _ _ _ _ _ _ Vy Vx).
      change (Pos.compare_cont Eq mx my) with (mx ?= my)%positive.
      change (Pos.compare_cont Eq my mx) with (my ?= mx)%positive.
      rewrite (Z.compare_antisym ex ey), (Pos.compare_antisym mx my).
      destruct (ex ?= ey); simpl; reflexivity.
    + apply Z.compare_lt_iff. lia.
    + apply Z.compare_gt_iff. lia.
    + now rewrite <- (mag_compare _ _ _ _ _ _ Vx Vy).
Qed.

(** *** Rounding keeps the sign *)

Lemma shr_1_m (mrs : shr_record) :
  0 <= shr_m mrs -> shr_m (shr_1 mrs) = shr_m mrs / 2.
Proof.
  destruct mrs as [m r s]. simpl. intros Hm.
  destruct m as [|[p|p|]|p]; simpl shr_m; try lia.
  - reflexivity.
  - change (Zpos p~1) with (2 * Zpos p + 1).
    apply (Z.div_unique _ _ _ 1); lia.
  - change (Zpos p~0) with (2 * Zpos p).
    apply (Z.div_unique _ _ _ 0); lia.
  - reflexivity.
Qed.

Lemma iter_shr_m (k : positive) :
  forall mrs : shr_record,
    0 <= shr_m mrs ->
    shr_m (iter_pos shr_1 k mrs) = shr_m mrs / 2 ^ Zpos k.
Proof.
  assert (Hdd : forall a b c, 0 < b -> 0 < c -> a / b / c = a / (b * c)).
  { intros. apply Z.div_div; lia. }
  induction k as [k IH|k IH|]; intros mrs Hm; simpl iter_pos.
  - pose proof (pow2_pos (Zpos k) ltac:(lia)) as Hk.
    assert (H1 : 0 <= shr_m (shr_1 mrs)).
    { rewrite shr_1_m by exact Hm. apply Z.div_pos; lia. }
    assert (H2 : 0 <= shr_m (iter_pos shr_1 k (shr_1 mrs))).
    { rewrite IH by exact H1. apply Z.div_pos; lia. }
    rewrite IH by exact H2. rewrite IH by exact H1. rewrite shr_1_m by exact Hm.
    change (Zpos k~1) with (2 * Zpos k + 1).
    replace (2 * Zpos k + 1) with (1 + Zpos k + Zpos k) by lia.
    rewrite !Z.pow_add_r by lia. rewrite !Hdd by lia.
    rewrite Z.pow_1_r. f_equal. ring.
  - pose proof (pow2_pos (Zpos k) ltac:(lia)) as Hk.
    assert (H2 : 0 <= shr_m (iter_pos shr_1 k mrs)).
    { rewrite IH by exact Hm. apply Z.div_pos; lia. }
    rewrite IH by exact H2. rewrite IH by exact Hm.
    change (Zpos k~0) with (2 * Zpos k).
    replace (2 * Zpos k) with (Zpos k + Zpos k) by lia.
    rewrite Z.pow_add_r by lia. rewrite Hdd by lia. reflexivity.
  - rewrite shr_1_m by exact Hm. reflexivity.
Qed.

Lemma shr_record_of_loc_m (m : Z) (l : location) :
  shr_m (shr_record_of_loc m l) = m.
Proof. destruct l as [|[]]; reflexivity. Qed.

(** Shifting a positive mantissa down to the precision leaves it positive
    when the exponent is not below the smallest one. *)
Lemma shr_fexp_pos (m e : Z) (l : location) :
  0 < m -> -1074 <= e ->
  0 < shr_m (fst (shr_fexp Number.prec Number.emax m e l))
  /\ -1074 <= snd (shr_fexp Number.prec Number.emax m e l).
Proof.
  intros Hm He. unfold shr_fexp, shr. rewrite fexp_eq.
  destruct m as [|p|p]; try lia. simpl Zdigits2.
  pose proof (digits2_bounds p) as [Hlo _].
  destruct (Z.max (Zpos (digits2_pos p) + e - 53) (-1074) - e) as [|k|k] eqn:En;
    cbn [fst snd]; rewrite ?shr_record_of_loc_m; try lia.
  rewrite iter_shr_m by (rewrite shr_record_of_loc_m; lia).
  rewrite shr_record_of_loc_m. split; [|lia].
  apply Z.div_str_pos. split; [apply pow2_pos; lia|].
  eapply Z.le_trans; [|exact Hlo]. apply pow2_le. lia.
Qed.

Lemma round_nearest_even_pos (m : Z) (l : location) :
  0 < m -> 0 < round_nearest_even m l.
Proof.
  intros Hm. destruct l as [|[]]; simpl; try lia. destruct (Z.even m); lia.
Qed.

Lemma binary_round_aux_signed (s : bool) (m e : Z) (l : location) :
  0 < m -> -1074 <= e ->
  Number.signed s (binary_round_aux Number.prec Number.emax s m e l).
Proof.
  intros Hm He. unfold binary_round_aux.
  pose proof (shr_fexp_pos m e l Hm He) as [H1 H1e].
  destruct (shr_fexp Number.prec Number.emax m e l) as [mrs' e'].
  cbn [fst snd] in H1, H1e.
  pose proof (round_nearest_even_pos _ (loc_of_shr_record mrs') H1) as Hr.
  pose proof (shr_fexp_pos _ e' loc_Exact Hr H1e) as [H2 _].
  destruct (shr_fexp Number.prec Number.emax _ e' loc_Exact) as [mrs'' e''].
  cbn [fst] in H2.
  destruct (shr_m mrs'') as [|q|q]; try lia.
  destruct (e'' <=? Number.emax - Number.prec); reflexivity.
Qed.

Lemma binary_round_signed (s : bool) (p : positive) (e : Z) :
  -1074 <= e -> Number.signed s (binary_round Number.prec Number.emax s p e).
Proof.
  intros He. unfold binary_round, shl_align. rewrite fexp_eq.
  destruct (Z.max (Zpos (digits2_pos p) + e - 53) (-1074) - e) eqn:En;
    apply binary_round_aux_signed; lia.
Qed.

(** *** Subtraction *)

Lemma iter_xO (m d : positive) :
  Zpos (Pos.iter xO m d) = Zpos m * 2 ^ Zpos d.
Proof.
  induction d as [|d IH] using Pos.peano_ind.
  - simpl Pos.iter. change (Zpos m~0) with (2 * Zpos m). rewrite Z.pow_1_r. ring.
  - rewrite Pos.iter_succ, Pos2Z.inj_succ, Z.pow_succ_r by lia.
    change (Zpos (Pos.iter xO m d)~0) with (2 * Zpos (Pos.iter xO m d)).
    rewrite IH. ring.
Qed.

Lemma shl_align_value (m : positive) (e e' : Z) :
  e' <= e -> Zpos (fst (shl_align m e e')) = Zpos m * 2 ^ (e - e').
Proof.
  intros He. unfold shl_align.
  destruct (e' - e) as [|d|d] eqn:Ed; cbn [fst]; try lia.
  - replace (e - e') with 0 by lia. rewrite Z.pow_0_r. ring.
  - rewrite iter_xO. f_equal. f_equal. lia.
Qed.

(** The integer whose sign decides a difference of finite doubles. *)
Lemma aligned_difference (sx sy : bool) (mx my : positive) (ex ey : Z) :
  -1074 <= ex -> -1074 <= ey ->
  let ez := Z.min ex ey in
  (cond_Zopp sx (Zpos (fst (shl_align mx ex ez)))
   - cond_Zopp sy (Zpos (fst (shl_align my ey ez)))) * 2 ^ (ez + 1074)
  = cond_Zopp sx (Number.mag mx ex) - cond_Zopp sy (Number.mag my ey).
Proof.
  intros Hx Hy ez. unfold Number.mag.
  rewrite !shl_align_value by (unfold ez; lia).
  replace (ex + 1074) with ((ex - ez) + (ez + 1074)) by lia.
  replace (ey + 1074) with ((ey - ez) + (ez + 1074)) by lia.
  rewrite (Z.pow_add_r 2 (ex - ez) (ez + 1074)) by (unfold ez; lia).
  rewrite (Z.pow_add_r 2 (ey - ez) (ez + 1074)) by (unfold ez; lia).
  destruct sx, sy; cbn [cond_Zopp]; ring.
Qed.

(** How a difference of finite doubles is classified. *)
Lemma sub_finite (sx sy : bool) (mx my : positive) (ex ey : Z) :
  Number.valid (S754_finite sx mx ex) = true ->
  Number.valid (S754_finite sy my ey) = true ->
  let x := S754_finite sx mx ex in
  let y := S754_finite sy my ey in
  (Number.ord x = Number.ord y /\ Number.sub x y = S754_zero false)
  \/ (Number.ord x < Number.ord y /\ Number.signed true (Number.sub x y))
  \/ (Number.ord y < Number.ord x /\ Number.signed false (Number.sub x y)).
Proof.
  intros Vx Vy x y.
  pose proof (valid_finite _ _ _ Vx) as (Hx & _).
  pose proof (valid_finite _ _ _ Vy) as (Hy & _).
  pose proof (aligned_difference sx sy mx my ex ey ltac:(lia) ltac:(lia)) as Hd.
  cbv zeta in Hd.
  assert (HK : 0 < 2 ^ (Z.min ex ey + 1074)) by (apply pow2_pos; lia).
  unfold Number.sub, x, y. cbn [SFsub Number.ord]. fold (Number.mag mx ex) (Number.mag my ey).
  set (D := cond_Zopp sx (Zpos (fst (shl_align mx ex (Z.min ex ey))))
            - cond_Zopp sy (Zpos (fst (shl_align my ey (Z.min ex ey))))) in *.
  destruct D as [|p|p] eqn:ED; cbn [binary_normalize].
  - left. split; [lia|reflexivity].
  - right. right. split; [nia|]. apply binary_round_signed. lia.
  - right. left. split; [nia|]. apply binary_round_signed. lia.
Qed.

Lemma signed_gt0 (s : bool) (r : Number.t) :
  Number.signed s r -> Number.gt0 r = negb s.
Proof. destruct r as [| | |s' m e]; simpl; try tauto; intros ->; now destruct s. Qed.

Lemma signed_le0 (s : bool) (r : Number.t) :
  Number.signed s r -> Number.le0 r = s.
Proof. destruct r as [| | |s' m e]; simpl; try tauto; intros ->; now destruct s. Qed.

(** Decide a comparison of integers from the facts at hand. *)
Ltac order :=
  match goal with
  | |- _ = (?a <? ?b) => destruct (Z.ltb_spec a b); try reflexivity; lia
  | |- _ = (?a <=? ?b) => destruct (Z.leb_spec a b); try reflexivity; lia
  | |- _ = (?a =? ?b) => destruct (Z.eqb_spec a b); try reflexivity; lia
  end.

(** The comparator's answer is positive exactly when the first operand is
    the larger one. *)
Lemma sub_gt0 (x y : Number.t) :
  Number.valid x = true -> Number.valid y = true ->
  Number.is_nan x = false -> Number.is_nan y = false ->
  Number.gt0 (Number.sub x y) = (Number.ord y <? Number.ord x).
Proof.
  intros Vx Vy Nx Ny.
  assert (Hbig : 0 < 2 ^ 2100) by (apply pow2_pos; lia).
  destruct x as [sx|sx| |sx mx ex], y as [sy|sy| |sy my ey]; try discriminate.
  - destruct sx, sy; reflexivity.
  - cbn [Number.sub SFsub Number.ord]. destruct sy; cbn [negb cond_Zopp];
      change (Number.gt0 (S754_infinity false)) with true;
      change (Number.gt0 (S754_infinity true)) with false; order.
  - pose proof (mag_pos my ey ltac:(apply valid_finite in Vy; lia)) as Hy.
    cbn [Number.sub SFsub Number.ord]. fold (Number.mag my ey).
    destruct sy; cbn [negb cond_Zopp];
      change (Number.gt0 (S754_finite false my ey)) with true;
      change (Number.gt0 (S754_finite true my ey)) with false; order.
  - cbn [Number.sub SFsub Number.ord]. destruct sx; cbn [cond_Zopp];
      change (Number.gt0 (S754_infinity false)) with true;
      change (Number.gt0 (S754_infinity true)) with false; order.
  - cbn [Number.ord]. destruct sx, sy; cbn [cond_Zopp];
      [change (Number.gt0 _) with false|change (Number.gt0 _) with false
       |change (Number.gt0 _) with true|change (Number.gt0 _) with false]; order.
  - pose proof (mag_pos my ey ltac:(apply valid_finite in Vy; lia)) as Hy.
    pose proof (mag_big _ _ _ Vy) as Hb.
    cbn [Number.sub SFsub Number.ord]. fold (Number.mag my ey).
    destruct sx, sy; cbn [cond_Zopp];
      change (Number.gt0 (S754_infinity false)) with true;
      change (Number.gt0 (S754_infinity true)) with false; order.
  - pose proof (mag_pos mx ex ltac:(apply valid_finite in Vx; lia)) as Hx.
    cbn [Number.sub SFsub Number.ord]. fold (Number.mag mx ex).
    destruct sx; cbn [cond_Zopp];
      change (Number.gt0 (S754_finite false mx ex)) with true;
      change (Number.gt0 (S754_finite true mx ex)) with false; order.
  - pose proof (mag_pos mx ex ltac:(apply valid_finite in Vx; lia)) as Hx.
    pose proof (mag_big _ _ _ Vx) as Hb.
    cbn [Number.sub SFsub Number.ord]. fold (Number.mag mx ex).
    destruct sx, sy; cbn [negb cond_Zopp];
      change (Number.gt0 (S754_infinity false)) with true;
      change (Number.gt0 (S754_infinity true)) with false; order.
  - destruct (sub_finite sx sy mx my ex ey Vx Vy) as [[Ho Hr]|[[Ho Hr]|[Ho Hr]]].
    + rewrite Hr. change (Number.gt0 (S754_zero false)) with false. order.
    + rewrite (signed_gt0 _ _ Hr). cbn [negb]. order.
    + rewrite (signed_gt0 _ _ Hr). cbn [negb]. order.
Qed.

(** For a first operand that is not infinite, the answer is at most zero
    exactly when the first operand is not the larger one. *)
Lemma sub_le0 (x y : Number.t) :
  Number.valid x = true -> Number.valid y = true ->
  Number.is_nan x = false -> Number.is_nan y = false ->
  (forall s, x <> S754_infinity s) ->
  Number.le0 (Number.sub x y) = (Number.ord x <=? Number.ord y).
Proof.
  intros Vx Vy Nx Ny Hfin.
  assert (Hbig : 0 < 2 ^ 2100) by (apply pow2_pos; lia).
  destruct x as [sx|sx| |sx mx ex], y as [sy|sy| |sy my ey]; try discriminate;
    try (now destruct (Hfin sx)).
  - destruct sx, sy; reflexivity.
  - cbn [Number.sub SFsub Number.ord]. destruct sy; cbn [negb cond_Zopp];
      change (Number.le0 (S754_infinity false)) with false;
      change (Number.le0 (S754_infinity true)) with true; order.
  - pose proof (mag_pos my ey ltac:(apply valid_finite in Vy; lia)) as Hy.
    cbn [Number.sub SFsub Number.ord]. fold (Number.mag my ey).
    destruct sy; cbn [negb cond_Zopp];
      change (Number.le0 (S754_finite false my ey)) with false;
      change (Number.le0 (S754_finite true my ey)) with true; order.
  - pose proof (mag_pos mx ex ltac:(apply valid_finite in Vx; lia)) as Hx.
    cbn [Number.sub SFsub Number.ord]. fold (Number.mag mx ex).
    destruct sx; cbn [cond_Zopp];
      change (Number.le0 (S754_finite false mx ex)) with false;
      change (Number.le0 (S754_finite true mx ex)) with true; order.
  - pose proof (mag_pos mx ex ltac:(apply valid_finite in Vx; lia)) as Hx.
    pose proof (mag_big _ _ _ Vx) as Hb.
    cbn [Number.sub SFsub Number.ord]. fold (Number.mag mx ex).
    destruct sx, sy; cbn [negb cond_Zopp];
      change (Number.le0 (S754_infinity false)) with false;
      change (Number.le0 (S754_infinity true)) with true; order.
  - destruct (sub_finite sx sy mx my ex ey Vx Vy) as [[Ho Hr]|[[Ho Hr]|[Ho Hr]]].
    + rewrite Hr. change (Number.le0 (S754_zero false)) with true. order.
    + rewrite (signed_le0 _ _ Hr). order.
    + rewrite (signed_le0 _ _ Hr). order.
Qed.

Lemma leb_ord (x y : Number.t) :
  Number.valid x = true -> Number.valid y = true ->
  Number.is_nan x = false -> Number.is_nan y = false ->
  Number.leb x y = (Number.ord x <=? Number.ord y).
Proof.
  intros Vx Vy Nx Ny. unfold Number.leb, SFleb.
  rewrite (compare_ord x y Vx Vy Nx Ny). unfold Z.leb.
  now destruct (Number.ord x ?= Number.ord y).
Qed.

Lemma eqb_ord (x y : Number.t) :
  Number.valid x = true -> Number.valid y = true ->
  Number.is_nan x = false -> Number.is_nan y = false ->
  Number.eqb x y = (Number.ord x =? Number.ord y).
Proof.
  intros Vx Vy Nx Ny. unfold Number.eqb, SFeqb.
  rewrite (compare_ord x y Vx Vy Nx Ny).
  destruct (Z.compare_spec (Number.ord x) (Number.ord y)) as [E|H|H].
  - now rewrite E, Z.eqb_refl.
  - symmetry. apply Z.eqb_neq. lia.
  - symmetry. apply Z.eqb_neq. lia.
Qed.

Lemma gt0_ord (x : Number.t) :
  Number.valid x = true -> Number.is_nan x = false ->
  Number.gt0 x = (0 <? Number.ord x).
Proof.
  intros Vx Nx. unfold Number.gt0, Number.ltb, SFltb.
  rewrite (compare_ord Number.zero x eq_refl Vx eq_refl Nx).
  change (Number.ord Number.zero) with 0. unfold Z.ltb.
  now destruct (0 ?= Number.ord x).
Qed.
End NumberFacts.


Local Close Scope Z_scope.

(** ** The sort orders by priority and is stable *)

Section KeySort.
Context {A : Type} (comparefn : A -> A -> Number.t) (key : A -> Z).
Variable P : A -> Prop.
Hypothesis comparefn_key :
  forall a b, P a -> P b ->
              Number.gt0 (comparefn a b) = (key b <? key a)%Z.

Let le (a b : A) : Prop := (key a <= key b)%Z.

Lemma insert_Forall (Q : A -> Prop) (x : A) (l : list A) :
  Q x -> Forall Q l -> Forall Q (insert comparefn x l).
Proof.
  intros Hx Hl. apply Forall_forall. intros y Hy.
  apply (Permutation_in _ (Permutation_sym (insert_perm comparefn x l))) in Hy.
  destruct Hy as [<-|Hy]; [exact Hx|].
  rewrite Forall_forall in Hl. auto.
Qed.

Lemma sort_Forall (Q : A -> Prop) (l : list A) :
  Forall Q l -> Forall Q (sort comparefn l).
Proof.
  intros Hl. apply Forall_forall. intros y Hy.
  apply sort_In in Hy. rewrite Forall_forall in Hl. auto.
Qed.

Lemma insert_sorted (x : A) (l : list A) :
  P x -> Forall P l -> StronglySorted le l ->
  StronglySorted le (insert comparefn x l).
Proof.
  intros Hx Hl Hs. induction l as [|y l IH]; simpl.
  - constructor; constructor.
  - inversion Hl as [|? ? Hy Hl']; subst.
    inversion Hs as [|? ? Hs' Hall]; subst.
    rewrite (comparefn_key x y Hx Hy).
    destruct (Z.ltb_spec (key y) (key x)) as [Hlt|Hge].
    + constructor; [now apply IH|].
      apply insert_Forall; [unfold le; lia|exact Hall].
    + constructor; [exact Hs|].
      constructor; [exact Hge|].
      eapply Forall_impl; [|exact Hall]. unfold le. intros z Hz. lia.
Qed.

Lemma sort_sorted (l : list A) :
  Forall P l -> StronglySorted le (sort comparefn l).
Proof.
  induction l as [|x l IH]; intros Hl; simpl; [constructor|].
  inversion Hl; subst.
  apply insert_sorted; auto. now apply sort_Forall.
Qed.

Lemma insert_stable (p : Z) (x : A) (l : list A) :
  P x -> Forall P l ->
  filter (fun a => key a =? p)%Z (insert comparefn x l)
  = filter (fun a => key a =? p)%Z (x :: l).
Proof.
  intros Hx Hl. induction l as [|y l IH]; [reflexivity|].
  inversion Hl as [|? ? Hy Hl']; subst. simpl insert.
  rewrite (comparefn_key x y Hx Hy).
  destruct (Z.ltb_spec (key y) (key x)) as [Hlt|Hge]; [|reflexivity].
  simpl. rewrite (IH Hl'). simpl.
  destruct (Z.eqb_spec (key x) p), (Z.eqb_spec (key y) p); try reflexivity.
  lia.
Qed.

Lemma sort_stable (p : Z) (l : list A) :
  Forall P l ->
  filter (fun a => key a =? p)%Z (sort comparefn l)
  = filter (fun a => key a =? p)%Z l.
Proof.
  induction l as [|x l IH]; intros Hl; [reflexivity|].
  inversion Hl; subst. simpl sort.
  rewrite insert_stable; auto using sort_Forall.
  simpl. now rewrite IH.
Qed.

End KeySort.

(** ** The comparator on specs *)

Lemma priority_of_nameObject (v name : value) :
  priority_of (nameObject v name) = priority_of v.
Proof.
  unfold nameObject. destruct (isObject v); [|reflexivity].
  destruct v; simpl assign_name; try reflexivity.
  unfold priority_of, get. simpl.
  now rewrite lookup_update_other by discriminate.
Qed.

Lemma orderable_spec (v : value) :
  orderable v = true ->
  Number.valid (priority_of v) = true /\ Number.is_nan (priority_of v) = false.
Proof.
  unfold orderable. rewrite andb_true_iff, negb_true_iff. tauto.
Qed.

Lemma compare_key (a b : value) :
  orderable a = true -> orderable b = true ->
  Number.gt0 (compare a b)
  = (Number.ord (priority_of b) <? Number.ord (priority_of a))%Z.
Proof.
  intros Ha Hb. apply orderable_spec in Ha, Hb.
  unfold compare. apply NumberFacts.sub_gt0; tauto.
Qed.

Lemma StronglySorted_impl_in {A : Type} (R R' : A -> A -> Prop) (P : A -> Prop)
      (l : list A) :
  (forall a b, P a -> P b -> R a b -> R' a b) ->
  Forall P l -> StronglySorted R l -> StronglySorted R' l.
Proof.
  intros HR Hl Hs. induction Hs as [|x l Hs IH Hall]; [constructor|].
  inversion Hl as [|? ? Hx Hl']; subst.
  constructor; [now apply IH|].
  rewrite Forall_forall in *. intros y Hy. apply HR; auto.
Qed.

(** Sorting orderable specs with [compare] puts them in ascending order of
    priority and keeps specs of equal priority in their original order. *)
Lemma sort_compare_ascending (l : list value) :
  Forall (fun v => orderable v = true) l ->
  ascending (sort compare l)
  /\ (forall p : Number.t,
         Number.valid p = true -> Number.is_nan p = false ->
         with_priority p (sort compare l) = with_priority p l).
Proof.
  intros Hl. split.
  - unfold ascending.
    apply (StronglySorted_impl_in
             (fun a b => (Number.ord (priority_of a)
                          <= Number.ord (priority_of b))%Z)
             _ (fun v => orderable v = true)).
    + intros a b Ha Hb Hle. apply orderable_spec in Ha, Hb.
      rewrite NumberFacts.leb_ord by tauto. now apply Z.leb_le.
    + now apply sort_Forall.
    + apply (sort_sorted compare (fun v => Number.ord (priority_of v))
               (fun v => orderable v = true)); auto using compare_key.
  - intros p Vp Np. unfold with_priority.
    assert (Hext : forall l' : list value,
               Forall (fun v => orderable v = true) l' ->
               filter (fun c => Number.eqb (priority_of c) p) l'
               = filter (fun c => (Number.ord (priority_of c) =? Number.ord p)%Z) l').
    { intros l' Hl'. apply filter_ext_in. intros c Hc.
      rewrite Forall_forall in Hl'. specialize (Hl' c Hc).
      apply orderable_spec in Hl'. apply NumberFacts.eqb_ord; tauto. }
    rewrite !Hext by auto using sort_Forall.
    apply (sort_stable compare (fun v => Number.ord (priority_of v))
             (fun v => orderable v = true)); auto using compare_key.
Qed.

(** C3, as amended. A spec without a numeric priority is compared as if its
    priority were [Number.MIN_VALUE], the smallest positive double: against
    a spec whose numeric priority is positive the comparator answers at most
    zero (the spec without priority sorts first), against one whose numeric
    priority is zero or negative it answers more than zero (the spec without
    priority sorts after it). Top-level specs and fallback children are
    ordered by the same pipeline. *)
Theorem compare_missing_priority (a b : value) (n : Number.t) :
  has_numeric_priority a = false ->
  get b "priority" = VNumber n ->
  Number.valid n = true -> Number.is_nan n = false ->
  compare a b = Number.sub Number.MIN_VALUE n
  /\ (Number.gt0 n = true -> Number.le0 (compare a b) = true)
  /\ (Number.gt0 n = false -> Number.gt0 (compare a b) = true)
  /\ (forall mapping : value, toCreate mapping = fallback_children mapping).
Proof.
  intros Ha Hb Vn Nn.
  assert (Hc : compare a b = Number.sub Number.MIN_VALUE n).
  { unfold compare, priority_of. rewrite Hb.
    unfold has_numeric_priority in Ha.
    destruct (get a "priority"); try reflexivity. discriminate. }
  rewrite Hc. split; [reflexivity|].
  pose proof (NumberFacts.gt0_ord n Vn Nn) as Hn.
  split; [|split; [|reflexivity]].
  - intros Hpos. rewrite Hpos in Hn.
    rewrite NumberFacts.sub_le0; auto; try discriminate.
    change (Number.ord Number.MIN_VALUE) with 1%Z.
    symmetry in Hn. apply Z.ltb_lt in Hn. apply Z.leb_le. lia.
  - intros Hneg. rewrite Hneg in Hn.
    rewrite NumberFacts.sub_gt0; auto.
    change (Number.ord Number.MIN_VALUE) with 1%Z.
    symmetry in Hn. apply Z.ltb_ge in Hn. apply Z.ltb_lt. lia.
Qed.

Lemma compare_missing_priority_witness :
  Number.le0 (compare (VObject [("module", VString "x")])
                      (VObject [("priority", Sample.number 10)]))
  = true.
Proof.
  apply (compare_missing_priority
           (VObject [("module", VString "x")])
           (VObject [("priority", Sample.number 10)])
           (Number.of_Z 10)); reflexivity.
Defined.

(** C3, as stated, fails against a negative priority: the comparator
    answers 1, which is more than zero, and the spec without priority is
    sorted behind the one with priority -1. *)
Lemma compare_missing_vs_negative :
  has_numeric_priority (VObject []) = false
  /\ compare (VObject []) (VObject [("priority", Sample.number (-1))])
     = Number.of_Z 1
  /\ Number.le0 (compare (VObject [])
                         (VObject [("priority", Sample.number (-1))]))
     = false
  /\ sort compare [VObject []; VObject [("priority", Sample.number (-1))]]
     = [VObject [("priority", Sample.number (-1))]; VObject []].
Proof. repeat split. Qed.

(** ** Fallback: order of the children and order of trial *)

Section FallbackRun.
Variable signal : middleware_fn -> option value.

Lemma last_cons {A : Type} (a d : A) (l : list A) :
  last (a :: l) d = last l a.
Proof.
  revert a d. induction l as [|b l IH]; intros a d; [reflexivity|].
  change (last (a :: b :: l) d) with (last (b :: l) d).
  now rewrite !IH.
Qed.

(** The run stops at the first task that completes without error. *)
Lemma fallback_run_first_success
      (pre post : list middleware_fn) (task : middleware_fn)
      (failure : option value) :
  Forall (fun t => signal t <> None) pre -> signal task = None ->
  fallback_run signal (pre ++ task :: post)%list failure = ((pre ++ [task])%list, None).
Proof.
  intros Hpre Htask. revert failure.
  induction Hpre as [|t pre Ht Hpre IH]; intros failure; simpl.
  - now rewrite Htask.
  - destruct (signal t) as [err|]; [|congruence].
    now rewrite IH.
Qed.

(** When every task fails, all are tried and the last error is forwarded. *)
Lemma fallback_run_all_fail
      (tasks : list middleware_fn) (failure : option value) :
  Forall (fun t => signal t <> None) tasks ->
  fallback_run signal tasks failure
  = (tasks, last (map signal tasks) failure).
Proof.
  intros Hall. revert failure.
  induction Hall as [|t tasks Ht Hall IH]; intros failure; [reflexivity|].
  simpl fallback_run. simpl map. rewrite last_cons.
  destruct (signal t) as [err|]; [|congruence].
  now rewrite IH.
Qed.

End FallbackRun.

Section FallbackFacts.
Variable call : nat -> value -> list value -> result value.
Variable load : string -> string -> result value.
Variable ToString : value -> string.
Variable JSON_stringify : value -> string.
Variable basedir : string.

Let resolve' := resolve call load ToString JSON_stringify basedir.

Lemma orderable_nameObject (v name : value) :
  orderable (nameObject v name) = orderable v.
Proof. unfold orderable. now rewrite priority_of_nameObject. Qed.

Lemma named_objects_orderable (mapping : value) :
  Forall (fun kv => isObject (snd kv) = true -> orderable (snd kv) = true)
         (entries mapping) ->
  Forall (fun v => orderable v = true)
         (filter isObject (mapValues mapping nameObject)).
Proof.
  intros H. apply Forall_forall. intros c Hc.
  apply named_objects_In in Hc. destruct Hc as (k & v & Hin & Ho & ->).
  rewrite orderable_nameObject.
  rewrite Forall_forall in H. now apply (H (k, v)).
Qed.

(** C2. The children of a fallback spec enter resolution as the object
    entries of the mapping sorted ascending by priority, children of equal
    priority in their mapping order (for priorities that can be ordered: any
    numbers but NaN); the composite is built over their resolutions in that
    order; serving a request, it tries its tasks in order, stops at the
    first that completes without error and invokes none after it, and when
    all fail it forwards the last error. With priorities 2 (fails), 1
    (succeeds) and 3, the order of trial is 1, 2, 3 and only the
    priority-1 task is invoked. *)
Theorem fallback_order_and_trial :
  (forall mapping : value,
      Forall (fun kv => isObject (snd kv) = true -> orderable (snd kv) = true)
             (entries mapping) ->
      Permutation (filter isObject (mapValues mapping nameObject))
                  (fallback_children mapping)
      /\ ascending (fallback_children mapping)
      /\ (forall p : Number.t,
             Number.valid p = true -> Number.is_nan p = false ->
             with_priority p (fallback_children mapping)
             = with_priority p (filter isObject (mapValues mapping nameObject))))
  /\ (forall (ps : list (string * value)) (name : value),
         disabled (VObject ps) = Return false ->
         truthy (get (VObject ps) "parallel") = false ->
         truthy (get (VObject ps) "race") = false ->
         truthy (get (VObject ps) "fallback") = true ->
         fst (resolve' (VObject ps) name)
         = (fns <- all (mapValues
                          (VArray (fallback_children (get (VObject ps) "fallback")))
                          (fun c k => fst (resolve' c k))) ;;
            Return (Composite Fallback (filter is_set fns))))
  /\ (forall (signal : middleware_fn -> option value)
             (pre post : list middleware_fn) (task : middleware_fn),
         Forall (fun t => signal t <> None) pre -> signal task = None ->
         fallback_run signal (pre ++ task :: post)%list None = ((pre ++ [task])%list, None))
  /\ (forall (signal : middleware_fn -> option value)
             (tasks : list middleware_fn),
         Forall (fun t => signal t <> None) tasks ->
         fallback_run signal tasks None = (tasks, last (map signal tasks) None))
  /\ fst (Sample.resolve Sample.fallback_spec (VString "content"))
     = Return (Composite Fallback
                 [Plain (VFunction 11 []); Plain (VFunction 10 []);
                  Plain (VFunction 12 [])])
  /\ fallback_run Sample.signal
       [Plain (VFunction 11 []); Plain (VFunction 10 []); Plain (VFunction 12 [])]
       None
     = ([Plain (VFunction 11 [])], None).
Proof.
  split.
  { intros mapping Hm. apply named_objects_orderable in Hm.
    split; [apply sort_perm|]. now apply sort_compare_ascending. }
  split.
  { intros ps name Hd Hp Hr Hf.
    assert (Hget : forall v k, k <> "name" ->
               get (VObject (update "name" v ps)) k = get (VObject ps) k).
    { intros v k Hk. now apply (get_assign_name (VObject ps) _ v). }
    unfold resolve' at 1. rewrite resolve_unfold. fold resolve'.
    unfold resolve_body. rewrite Hd. simpl assign_name. cbv iota.
    rewrite !Hget by discriminate. rewrite Hp, Hr, Hf.
    simpl fst. unfold await_all, mapValues. now rewrite map_map. }
  split; [intros; now apply fallback_run_first_success|].
  split; [intros; now apply fallback_run_all_fail|].
  split; reflexivity.
Qed.

End FallbackFacts.

Lemma fallback_order_and_trial_witness :
  ascending (fallback_children (get Sample.fallback_spec "fallback"))
  /\ fallback_run Sample.signal
       ([Plain (VFunction 10 [])] ++ Plain (VFunction 11 []) :: [Plain (VFunction 12 [])])%list
       None
     = (([Plain (VFunction 10 [])] ++ [Plain (VFunction 11 [])])%list, None).
Proof.
  pose proof (fallback_order_and_trial
                Sample.call Sample.load Sample.ToString Sample.JSON_stringify
                Sample.basedir) as (Horder & _ & Hrun & _).
  split.
  - apply (Horder (get Sample.fallback_spec "fallback")).
    repeat constructor.
  - apply Hrun; [repeat constructor; discriminate|reflexivity].
Defined.

(** * Further properties of the code *)

(** ** The comparator is a consistent one *)

Lemma ltb_ord (x y : Number.t) :
  Number.valid x = true -> Number.valid y = true ->
  Number.is_nan x = false -> Number.is_nan y = false ->
  Number.ltb x y = (Number.ord x <? Number.ord y)%Z.
Proof.
  intros Vx Vy Nx Ny. unfold Number.ltb, SFltb.
  rewrite (NumberFacts.compare_ord x y Vx Vy Nx Ny). unfold Z.ltb.
  now destruct (Number.ord x ?= Number.ord y)%Z.
Qed.

(** X1. On specs whose priorities can be ordered, [compare(a, b) > 0]
    exactly when the priority of [b] is below that of [a] (no difference of
    distinct doubles rounds to zero); so the comparator never puts two
    specs each behind the other, puts no spec behind itself, and is
    transitive: it is a consistent comparator for [sort]. *)
Theorem compare_sign_is_order (a b c : value) :
  orderable a = true -> orderable b = true -> orderable c = true ->
  Number.gt0 (compare a b) = Number.ltb (priority_of b) (priority_of a)
  /\ (Number.gt0 (compare a b) = true -> Number.gt0 (compare b a) = false)
  /\ Number.gt0 (compare a a) = false
  /\ (Number.gt0 (compare a b) = true -> Number.gt0 (compare b c) = true ->
      Number.gt0 (compare a c) = true).
Proof.
  intros Ha Hb Hc.
  rewrite !compare_key by assumption.
  apply orderable_spec in Ha, Hb, Hc.
  rewrite ltb_ord by tauto.
  split; [reflexivity|].
  rewrite !Z.ltb_lt, Z.ltb_ge, Z.ltb_irrefl. repeat split; lia.
Qed.

Lemma compare_sign_is_order_witness :
  Number.gt0 (compare (VObject [("priority", Sample.number 20)])
                      (VObject [("priority", Sample.number 10)]))
  = Number.ltb (Number.of_Z 10) (Number.of_Z 20).
Proof.
  apply (compare_sign_is_order
           (VObject [("priority", Sample.number 20)])
           (VObject [("priority", Sample.number 10)])
           (VObject [])); reflexivity.
Defined.

Lemma sub_nan_r (x : Number.t) : Number.sub x S754_nan = S754_nan.
Proof. now destruct x. Qed.

(** X2. A spec whose [priority] is NaN has a numeric priority, so it is
    not replaced by [Number.MIN_VALUE]: against every other spec, in either
    position, the comparator answers NaN, which is neither above nor at
    most zero. *)
Theorem compare_nan_priority (a b : value) :
  get b "priority" = VNumber S754_nan ->
  compare a b = S754_nan /\ compare b a = S754_nan
  /\ Number.gt0 (compare a b) = false /\ Number.le0 (compare a b) = false
  /\ Number.gt0 (compare b a) = false /\ Number.le0 (compare b a) = false.
Proof.
  intros Hb.
  assert (Hp : priority_of b = S754_nan) by (unfold priority_of; now rewrite Hb).
  assert (H1 : compare a b = S754_nan).
  { unfold compare. rewrite Hp. apply sub_nan_r. }
  assert (H2 : compare b a = S754_nan) by (unfold compare; now rewrite Hp).
  rewrite H1, H2. repeat split.
Qed.

Lemma compare_nan_priority_witness :
  compare (VObject [("priority", Sample.number 3)])
          (VObject [("priority", VNumber S754_nan)])
  = S754_nan.
Proof.
  apply (compare_nan_priority
           (VObject [("priority", Sample.number 3)])
           (VObject [("priority", VNumber S754_nan)])); reflexivity.
Defined.

(** ** Routes *)

Lemma without_trailing_slash_append (s : string) :
  without_trailing_slash (s ++ "/") = s.
Proof.
  induction s as [|c s IH]; [reflexivity|].
  change (String c s ++ "/") with (String c (s ++ "/")).
  destruct s as [|d s]; [reflexivity|].
  change (without_trailing_slash (String c (String d s ++ "/")))
    with (String c (without_trailing_slash (String d s ++ "/"))).
  now rewrite IH.
Qed.

Lemma without_trailing_slash_none (s : string) :
  is_slash (last_char s) = false -> without_trailing_slash s = s.
Proof.
  intros H. pose proof (trailing_slash_split s) as E.
  rewrite H, append_empty_r in E. now symmetry.
Qed.

Lemma without_leading_slash_none (r : string) :
  is_slash (char_at 0 r) = false -> without_leading_slash r = r.
Proof.
  destruct r as [|c r]; [reflexivity|].
  unfold char_at. simpl. now intros ->.
Qed.

(** X3. When the mount path does not end with a separator and the route
    does not begin with one, the four ways of writing the separator (on the
    mount path, on the route, on both, on neither) normalise to the same
    route: mount path, separator, route. *)
Theorem normalize_slash_placement (mountpath route : string) :
  is_slash (last_char mountpath) = false ->
  is_slash (char_at 0 route) = false ->
  normalize mountpath (VString route) = VString (mountpath ++ "/" ++ route)
  /\ normalize (mountpath ++ "/") (VString route)
     = VString (mountpath ++ "/" ++ route)
  /\ normalize mountpath (VString ("/" ++ route))
     = VString (mountpath ++ "/" ++ route)
  /\ normalize (mountpath ++ "/") (VString ("/" ++ route))
     = VString (mountpath ++ "/" ++ route).
Proof.
  intros Hm Hr. rewrite !normalize_string. unfold joined.
  rewrite without_trailing_slash_append.
  rewrite (without_trailing_slash_none _ Hm).
  rewrite (without_leading_slash_none _ Hr).
  repeat split.
Qed.

Lemma normalize_slash_placement_witness :
  normalize ("/api" ++ "/") (VString ("/" ++ "users"))
  = VString ("/api" ++ "/" ++ "users").
Proof.
  apply (normalize_slash_placement "/api" "users"); reflexivity.
Defined.

Lemma prefix_append (a b : string) : prefix a (a ++ b) = true.
Proof.
  induction a as [|c a IH]; [now destruct b|].
  simpl. destruct (ascii_dec c c); [exact IH|congruence].
Qed.

(** X4. Whatever the string route, the normalised route begins with the
    mount path and is not empty; when the mount path is empty or begins
    with a separator, the normalised route begins with a separator. *)
Theorem normalize_under_mountpath (mountpath route : string) :
  exists s : string,
    normalize mountpath (VString route) = VString s
    /\ prefix mountpath s = true
    /\ s <> ""
    /\ (mountpath = "" \/ is_slash (char_at 0 mountpath) = true ->
        is_slash (char_at 0 s) = true).
Proof.
  exists (mountpath
          ++ (if is_slash (last_char mountpath) then "" else "/")
          ++ without_leading_slash route).
  split.
  { unfold normalize. simpl. rewrite leading_slash_strip, append_assoc.
    now destruct (is_slash (last_char mountpath)). }
  split; [apply prefix_append|].
  split.
  - destruct mountpath as [|c m]; [|discriminate].
    simpl. discriminate.
  - intros [->|H]; [reflexivity|].
    destruct mountpath as [|c m]; [discriminate|exact H].
Qed.

Lemma normalize_under_mountpath_witness :
  exists s : string,
    normalize "" (VString "users") = VString s
    /\ prefix "" s = true /\ s <> ""
    /\ ("" = "" \/ is_slash (char_at 0 "") = true ->
        is_slash (char_at 0 s) = true).
Proof. apply (normalize_under_mountpath "" "users"). Defined.

(** X5. The route handed to [parent.use]: a string route is joined to the
    mount path; an array of string routes is joined element by element
    (an empty array stays empty); a regular expression is passed as it is;
    a spec without route is registered at the mount path. *)
Theorem route_of_cases (mountpath : string) (spec : value) :
  (forall r : string,
      get spec "route" = VString r ->
      route_of mountpath spec = VString (joined mountpath r))
  /\ (forall rs : list string,
         get spec "route" = VArray (map VString rs) ->
         route_of mountpath spec
         = VArray (map (fun r => VString (joined mountpath r)) rs))
  /\ (forall source : string,
         get spec "route" = VRegExp source ->
         route_of mountpath spec = VRegExp source)
  /\ (get spec "route" = VUndefined ->
      route_of mountpath spec = VString mountpath).
Proof.
  unfold route_of. repeat split.
  - intros r ->. apply normalize_string.
  - intros rs ->. f_equal. rewrite map_map. apply map_ext.
    intros r. apply normalize_string.
  - now intros source ->.
  - now intros ->.
Qed.

Lemma route_of_cases_witness :
  route_of "/api" (VObject [("route", VArray (map VString ["/a"; "b"]))])
  = VArray (map (fun r => VString (joined "/api" r)) ["/a"; "b"]).
Proof.
  apply (proj1 (proj2 (route_of_cases "/api"
           (VObject [("route", VArray (map VString ["/a"; "b"]))])))).
  reflexivity.
Defined.

(** ** Mounting *)

Section MountFacts.
Variable ToString : value -> string.



End MountFacts.

(** ** Resolution of a spec object, case by case *)



Section ResolveCases.
Variable call : nat -> value -> list value -> result value.
Variable load : string -> string -> result value.
Variable ToString : value -> string.
Variable JSON_stringify : value -> string.
Variable basedir : string.

Let resolve' := resolve call load ToString JSON_stringify basedir.
Let resolveImpl' := resolveImpl call load ToString JSON_stringify.
Let register' := register call load ToString JSON_stringify basedir.
Let meddlewareImpl' := meddlewareImpl call load ToString JSON_stringify basedir.

(** The children of a combinator as [resolve] is called on them. *)
Let children (mapping : value) : list (result middleware_fn) :=
  mapValues mapping (fun c k => fst (resolve' c k)).

(** What [resolve] does with a spec object that is not disabled. *)
Lemma resolve_object (ps : list (string * value)) (name : value) :
  disabled (VObject ps) = Return false ->
  resolve' (VObject ps) name
  = ((if truthy (get (VObject ps) "parallel") then
        fns <- all (children (get (VObject ps) "parallel")) ;;
        Return (middleware Parallel fns)
      else if truthy (get (VObject ps) "race") then
        fns <- all (children (get (VObject ps) "race")) ;;
        Return (middleware Race fns)
      else if truthy (get (VObject ps) "fallback") then
        fns <- all (children
                      (VArray (fallback_children (get (VObject ps) "fallback")))) ;;
        Return (middleware Fallback fns)
      else
        fn <- resolveImpl' basedir (get (VObject ps) "module") ;;
        Return (Plain fn)),
     VObject (update "name" (or_else (get (VObject ps) "name") name) ps)).
Proof.
  intros Hd.
  assert (Hget : forall v k, k <> "name" ->
             get (VObject (update "name" v ps)) k = get (VObject ps) k).
  { intros v k Hk. now apply (get_assign_name (VObject ps) _ v). }
  unfold resolve' at 1. rewrite resolve_unfold. fold resolve'.
  unfold resolve_body. rewrite Hd. simpl assign_name. cbv iota.
  rewrite !Hget by discriminate.
  unfold children, await_all, mapValues. rewrite !map_map.
  destruct (truthy (get (VObject ps) "parallel")); [reflexivity|].
  destruct (truthy (get (VObject ps) "race")); [reflexivity|].
  destruct (truthy (get (VObject ps) "fallback")); reflexivity.
Qed.






(** X9. A spec object that is not disabled, has no combinator and no
    module section (the module is absent or another falsy value that is
    not a string) is rejected with the TypeError "No module section given
    in middleware entry", whatever the loader holds. *)
Theorem leaf_without_module (ps : list (string * value)) (name : value) :
  disabled (VObject ps) = Return false ->
  truthy (get (VObject ps) "parallel") = false ->
  truthy (get (VObject ps) "race") = false ->
  truthy (get (VObject ps) "fallback") = false ->
  truthy (get (VObject ps) "module") = false ->
  isString (get (VObject ps) "module") = false ->
  fst (resolve' (VObject ps) name)
  = Throw (TypeError "No module section given in middleware entry")
  /\ pushed (resolve' (VObject ps) name) = [].
Proof.
  intros Hd Hp Hr Hf Hm Hs. rewrite (resolve_object ps name Hd).
  rewrite Hp, Hr, Hf. unfold resolveImpl'.
  assert (Hi : resolveImpl call load ToString JSON_stringify basedir
                 (get (VObject ps) "module")
               = Throw (TypeError "No module section given in middleware entry")).
  { destruct (get (VObject ps) "module"); try discriminate;
      unfold resolveImpl, resolveConfig; simpl; simpl in Hm;
        rewrite ?Hm; reflexivity. }
  rewrite Hi. split; reflexivity.
Qed.

(** X10. A config that reaches the loader without a usable name (a config
    object whose [factory] is not callable and whose [name] is absent or
    falsy) fails with the TypeError "Module name not defined in middleware
    config: " followed by the config as JSON; the loader is not asked. *)
Theorem module_name_required (root : string) (config : value) :
  truthy config = true -> isFunction config = false ->
  isString config = false ->
  isFunction (get config "factory") = false ->
  truthy (get config "name") = false ->
  resolveImpl' root config
  = Throw (TypeError ("Module name not defined in middleware config: "
                      ++ JSON_stringify config)).
Proof.
  intros Ht Hf Hs Hfac Hn. unfold resolveImpl'.
  rewrite resolveImpl_object by assumption.
  unfold resolveConfig. rewrite Ht, Hfac, andb_false_r. simpl.
  unfold findModule. now rewrite Hn.
Qed.

(** X11. [resolve] called on anything that is neither an object nor a
    function (a string, a number, a boolean, null, undefined) throws a
    TypeError of the language at its first test and leaves the value as it
    is: such an entry of a parallel or race mapping rejects the spec. *)
Theorem resolve_rejects_primitives (v name : value) :
  isObject v = false -> isFunction v = false ->
  resolve' v name = (Throw NativeTypeError, v).
Proof.
  intros Ho Hf. unfold resolve'. rewrite resolve_unfold. unfold resolve_body.
  destruct v; try discriminate; reflexivity.
Qed.

(** X12. The name handed to [resolve] is only a default: for a spec
    object that has a truthy [name] of its own, the result and the spec
    left behind do not depend on it. *)
Theorem resolve_name_is_default
        (ps : list (string * value)) (name1 name2 : value) :
  truthy (get (VObject ps) "name") = true ->
  resolve' (VObject ps) name1 = resolve' (VObject ps) name2.
Proof.
  intros Hn. unfold resolve'. rewrite !resolve_unfold. unfold resolve_body.
  destruct (disabled (VObject ps)) as [[|]|]; try reflexivity.
  unfold or_else. now rewrite Hn.
Qed.

End ResolveCases.

(** ** The registration list, in order *)

Lemma ascending_flat_map (f : value -> list value) (l : list value) :
  (forall x y, In y (f x) -> priority_of y = priority_of x) ->
  (forall x, List.length (f x) <= 1) ->
  ascending l -> ascending (flat_map f l).
Proof.
  intros Hp Hlen Hs. unfold ascending in *.
  induction Hs as [|x l Hs IH Hall]; [constructor|].
  simpl. specialize (Hlen x).
  destruct (f x) as [|y [|z t]] eqn:Hf; simpl in Hlen; try lia.
  - exact IH.
  - simpl. constructor; [exact IH|].
    apply Forall_forall. intros z Hz. apply in_flat_map in Hz.
    destruct Hz as (x' & Hx' & Hz).
    rewrite (Hp x y) by (rewrite Hf; now left).
    rewrite (Hp x' z Hz).
    rewrite Forall_forall in Hall. now apply Hall.
Qed.

Section RegistrationOrder.
Variable call : nat -> value -> list value -> result value.
Variable load : string -> string -> result value.
Variable ToString : value -> string.
Variable JSON_stringify : value -> string.
Variable basedir : string.

Let resolve' := resolve call load ToString JSON_stringify basedir.
Let register' := register call load ToString JSON_stringify basedir.
Let meddlewareImpl' := meddlewareImpl call load ToString JSON_stringify basedir.

(** One round of the loop, for the spec [s]. *)
Let round (s : value) : list entry := pushed (resolve' s (get s "name")).

Lemma register_rounds (specs : list value) :
  forall acc registered : list entry,
    register' specs acc = Return registered ->
    registered = (acc ++ flat_map round specs)%list.
Proof.
  induction specs as [|s specs IH]; intros acc registered; simpl.
  - intros [= <-]. now rewrite app_nil_r.
  - unfold register'. simpl. fold register'. unfold round at 1, resolve'.
    destruct (resolve call load ToString JSON_stringify basedir s (get s "name"))
      as [r s1].
    destruct r as [f|e]; simpl; [|discriminate].
    intros H. apply IH in H. rewrite H.
    destruct (is_set f); [now rewrite <- app_assoc|reflexivity].
Qed.



(** The spec [resolve] leaves behind has the priority it came with. *)
Lemma resolve_keeps_priority (s name : value) :
  priority_of (snd (resolve' s name)) = priority_of s.
Proof.
  unfold resolve'. rewrite resolve_unfold. unfold resolve_body.
  destruct (disabled s) as [[|]|]; try reflexivity.
  destruct (assign_name s _) as [s1|] eqn:Ha; [|reflexivity].
  assert (Hp : priority_of s1 = priority_of s).
  { unfold priority_of.
    now rewrite (get_assign_name _ _ _ "priority" ltac:(discriminate) Ha). }
  destruct (truthy (get s1 "parallel")); [exact Hp|].
  destruct (truthy (get s1 "race")); [exact Hp|].
  destruct (truthy (get s1 "fallback")); exact Hp.
Qed.

Lemma round_spec (s : value) (e : entry) :
  In e (round s) -> priority_of (spec e) = priority_of s.
Proof.
  unfold round, pushed. pose proof (resolve_keeps_priority s (get s "name")) as Hp.
  destruct (resolve' s (get s "name")) as [r s1]. simpl in Hp.
  destruct r as [f|]; [|intros []].
  destruct (is_set f); [|intros []].
  intros [<-|[]]. exact Hp.
Qed.

Lemma round_length (s : value) : List.length (round s) <= 1.
Proof.
  unfold round, pushed. destruct (resolve' s (get s "name")) as [[f|] s1];
    [destruct (is_set f)|]; simpl; lia.
Qed.

(** X13. When [meddlewareImpl] succeeds, its registration list holds, in
    the order of the sorted specs, one entry for each spec whose resolution
    gave something truthy and none for the others; for priorities that can
    be ordered the specs of the list are in ascending order of priority. *)
Theorem registration_in_priority_order
        (settings : value) (registered : list entry) :
  meddlewareImpl' settings = Return registered ->
  registered
  = flat_map (fun s => pushed (resolve' s (get s "name"))) (toCreate settings)
  /\ List.length registered <= List.length (toCreate settings)
  /\ (Forall (fun kv => isObject (snd kv) = true -> orderable (snd kv) = true)
             (entries settings) ->
      ascending (map spec registered)).
Proof.
  intros H. unfold meddlewareImpl', meddlewareImpl in H.
  apply register_rounds in H. simpl in H. fold round.
  assert (Hlen : forall l, List.length (flat_map round l) <= List.length l).
  { induction l as [|s l IH]; [reflexivity|].
    simpl. rewrite length_app. pose proof (round_length s). lia. }
  split; [exact H|]. split; [rewrite H; apply Hlen|].
  intros Ho. rewrite H.
  assert (Hmap : forall l, map spec (flat_map round l)
                           = flat_map (fun s => map spec (round s)) l).
  { induction l as [|s l IH]; [reflexivity|].
    simpl. now rewrite map_app, IH. }
  rewrite Hmap. apply ascending_flat_map.
  - intros x y Hy. apply in_map_iff in Hy. destruct Hy as (e & <- & He).
    now apply round_spec.
  - intros x. rewrite length_map. apply round_length.
  - unfold toCreate. apply sort_compare_ascending.
    now apply named_objects_orderable.
Qed.


End RegistrationOrder.

(** ** Concrete runs of the properties above *)



Lemma leaf_without_module_witness :
  fst (Sample.resolve (VObject [("route", VString "/x")]) (VString "static"))
  = Throw (TypeError "No module section given in middleware entry").
Proof.
  apply (leaf_without_module
           Sample.call Sample.load Sample.ToString Sample.JSON_stringify
           Sample.basedir [("route", VString "/x")] (VString "static"));
    reflexivity.
Defined.

Lemma module_name_required_witness :
  Sample.resolveImpl "/app" (VObject [("method", VString "create")])
  = Throw (TypeError ("Module name not defined in middleware config: "
                      ++ Sample.JSON_stringify
                           (VObject [("method", VString "create")]))).
Proof.
  apply (module_name_required
           Sample.call Sample.load Sample.ToString Sample.JSON_stringify
           "/app" (VObject [("method", VString "create")]));
    reflexivity.
Defined.

Lemma resolve_rejects_primitives_witness :
  Sample.resolve (VString "junk") (VString "z")
  = (Throw NativeTypeError, VString "junk").
Proof.
  apply (resolve_rejects_primitives
           Sample.call Sample.load Sample.ToString Sample.JSON_stringify
           Sample.basedir (VString "junk") (VString "z"));
    reflexivity.
Defined.

Lemma resolve_name_is_default_witness :
  Sample.resolve
    (VObject [("name", VString "custom"); ("module", VFunction 0 [])])
    (VString "a")
  = Sample.resolve
      (VObject [("name", VString "custom"); ("module", VFunction 0 [])])
      (VString "b").
Proof.
  apply (resolve_name_is_default
           Sample.call Sample.load Sample.ToString Sample.JSON_stringify
           Sample.basedir
           [("name", VString "custom"); ("module", VFunction 0 [])]
           (VString "a") (VString "b")).
  reflexivity.
Defined.

Lemma registration_in_priority_order_witness :
  ascending
    (map spec
       [ {| fn := Plain (VFunction 11 []);
            spec := VObject [("priority", Sample.number 1);
                             ("module", VFunction 1 []);
                             ("name", VString "a")] |};
         {| fn := Plain (VFunction 10 []);
            spec := VObject [("priority", Sample.number 2);
                             ("module", VFunction 0 []);
                             ("name", VString "b")] |} ]).
Proof.
  apply (proj2 (proj2 (registration_in_priority_order
           Sample.call Sample.load Sample.ToString Sample.JSON_stringify
           Sample.basedir
           (VObject [("b", VObject [("priority", Sample.number 2);
                                    ("module", VFunction 0 [])]);
                     ("a", VObject [("priority", Sample.number 1);
                                    ("module", VFunction 1 [])])])
           _ eq_refl))).
  repeat constructor.
Defined.


(** ** A method that the loaded unit does not have *)

Section MethodFacts.
Variable load : string -> string -> result value.
Variable ToString : value -> string.
Variable JSON_stringify : value -> string.
Variable root : string.

(** X15. When the config names a method, a loaded unit that is itself
    callable is not used in its place: if the unit has no callable member
    of that name and no [default] object, [resolveImpl] throws the Error
    "Unable to locate middleware in " followed by the name, and the unit is
    never called. *)
Theorem method_not_replaced_by_module
        (config : value) (name : string)
        (f : nat) (props : list (string * value)) :
  isFunction config = false ->
  isFunction (get config "factory") = false ->
  get config "name" = VString name -> name <> "" ->
  truthy (get config "method") = true ->
  load root name = Return (VFunction f props) ->
  isFunction (get (VFunction f props)
                  (to_string ToString (get config "method"))) = false ->
  isObject (get (VFunction f props) "default") = false ->
  forall call' : nat -> value -> list value -> result value,
    resolveImpl call' load ToString JSON_stringify root config
    = Throw (Error ("Unable to locate middleware in " ++ name)).
Proof.
  intros Hc Hf Hname Hne Hm Hload Hmem Hdef call'.
  assert (Hs : isString config = false).
  { destruct config; try reflexivity. discriminate. }
  rewrite (resolveImpl_object call' load ToString JSON_stringify root config Hc Hs).
  rewrite (resolveConfig_located call' load ToString JSON_stringify root
             config (VFunction f props) name Hf Hname Hne Hload).
  rewrite findModuleMethod_selected by discriminate.
  unfold selected_member. rewrite Hm, Hmem, Hdef. reflexivity.
Qed.

End MethodFacts.

Lemma method_not_replaced_by_module_witness :
  resolveImpl Sample.call
    (fun _ _ => Return (VFunction 0 []))
    Sample.ToString Sample.JSON_stringify "/app"
    (VObject [("name", VString "y"); ("method", VString "create")])
  = Throw (Error ("Unable to locate middleware in " ++ "y")).
Proof.
  apply (method_not_replaced_by_module
           (fun _ _ => Return (VFunction 0 []))
           Sample.ToString Sample.JSON_stringify "/app"
           (VObject [("name", VString "y"); ("method", VString "create")])
           "y" 0 []); try reflexivity.
  discriminate.
Defined.
